(** * react-native-reanimated: hook utilities and the animated-style updater

    A shallow embedding of [src/reanimated2/hook/utils.ts] and of the
    style-update engine of [useAnimatedStyle.ts] ([prepareAnimation],
    [runAnimations], [styleUpdater], [jestStyleUpdater]), with the
    properties of the specification stated over it.

    Conventions of the embedding
    - JavaScript numbers are IEEE 754 binary64 values, taken from the
      Standard Library's [spec_float] ([SFeqb] is [===] on numbers).
    - A JavaScript exception is the outcome [Throw]; [Stuck] is reserved for
      states outside the modelled fragment (a dangling reference, a
      function found where the model keeps none); it is never a JavaScript
      behaviour.
    - Objects that the code mutates and shares live in explicit stores,
      addressed by reference: the dependency arrays of [buildDependencies],
      and the animation objects, which the producer result,
      [state.animations] and [state.last] all point to.  The container
      objects of a producer result are only read, and are trees.
    - The code's calls to the outside (animation callbacks, [updateProps],
      [requestFrame]) are recorded in a trace, in order.
    - Property trees are finite: a cyclic producer result has no
      counterpart here.
    - [Number.prototype.toString] and [JSON.stringify] are parameters of
      the definitions that call them: the theorems hold whatever texts
      they give. *)

From Stdlib Require Import ZArith List Bool Lia.
From Stdlib Require Import Floats.SpecFloat.
From stdpp Require Import base strings gmap list pretty.

Set Default Proof Using "Type".
Set Warnings "-register-all".
Open Scope string_scope.
Open Scope list_scope.

(** ** Outcomes of a JavaScript computation *)

Inductive error :=
| TypeError (msg : string)
| Error (msg : string).

Inductive outcome (A : Type) :=
| Ok (a : A)
| Throw (e : error)
| Stuck.
Arguments Ok {A} a.
Arguments Throw {A} e.
Arguments Stuck {A}.

Definition obind {A B} (m : outcome A) (k : A -> outcome B) : outcome B :=
  match m with
  | Ok a => k a
  | Throw e => Throw e
  | Stuck => Stuck
  end.

Definition raises {A} (m : outcome A) : bool :=
  match m with Throw _ => true | _ => false end.

(** ** Numbers *)

Module Num.

Definition number := spec_float.

Definition prec : Z := 53.
Definition emax : Z := 1024.

Definition NaN : number := S754_nan.
Definition pzero : number := S754_zero false.
Definition nzero : number := S754_zero true.
(** The double [1]: mantissa 2^52, exponent -52. *)
Definition one : number := S754_finite false 4503599627370496 (-52).

(** [x === y] and [x !== y] on numbers. *)
Definition eq (x y : number) : bool := SFeqb x y.
Definition neq (x y : number) : bool := negb (SFeqb x y).

(** [1 / x]. *)
Definition recip (x : number) : number := SFdiv prec emax one x.

(** ECMAScript SameValue on numbers, the number case of [Object.is]. *)
Definition same_value (x y : number) : bool :=
  match x, y with
  | S754_nan, S754_nan => true
  | S754_zero s, S754_zero s' => Bool.eqb s s'
  | _, _ => SFeqb x y
  end.

End Num.

(** ** Dependency tracker *)

Module Deps.

Definition addr := nat.

(** An entry of a dependency list has type [unknown]; objects and
    functions are compared by identity, so they are kept as references. *)
Inductive dval :=
| DUndef
| DNull
| DBool (b : bool)
| DNum (x : Num.number)
| DStr (s : string)
| DRef (a : addr).

(** [x === y]. *)
Definition strict_eq (x y : dval) : bool :=
  match x, y with
  | DUndef, DUndef => true
  | DNull, DNull => true
  | DBool a, DBool b => Bool.eqb a b
  | DNum a, DNum b => Num.eq a b
  | DStr a, DStr b => String.eqb a b
  | DRef a, DRef b => Nat.eqb a b
  | _, _ => false
  end.

Definition strict_neq (x y : dval) : bool := negb (strict_eq x y).

(** [1 / x]; only the number case is modelled, the guard [x !== 0] of
    [is_] keeps every other case from being evaluated
    (see [is_recip_guard]). *)
Definition recip (x : dval) : option Num.number :=
  match x with
  | DNum a => Some (Num.recip a)
  | _ => None
  end.

Definition recip_strict_eq (x y : dval) : bool :=
  match recip x, recip y with
  | Some a, Some b => Num.eq a b
  | _, _ => false
  end.

(** The local function [is] (here [is_]) of [areDependenciesEqual]:
    [(x === y && (x !== 0 || 1 / x === 1 / y)) || (x !== x && y !== y)]. *)
Definition is_ (x y : dval) : bool :=
  (strict_eq x y && (strict_neq x (DNum Num.pzero) || recip_strict_eq x y))
  || (strict_neq x x && strict_neq y y).

(** The builtin [Object.is] (ECMAScript SameValue). *)
Definition Object_is (x y : dval) : bool :=
  match x, y with
  | DNum a, DNum b => Num.same_value a b
  | _, _ => strict_eq x y
  end.

(** [typeof Object.is === 'function' ? Object.is : is]. *)
Definition objectIs (has_Object_is : bool) : dval -> dval -> bool :=
  if has_Object_is then Object_is else is_.

(** A [DependencyList] is an array or [undefined]. *)
Definition DependencyList := option (list dval).

(** The loop [for (let i = 0; i < prevDeps.length; ++i)], reading
    [nextDeps[i]] and [prevDeps[i]]; the lengths are equal when it runs. *)
Fixpoint hook_inputs_loop (cmp : dval -> dval -> bool)
    (next prev : list dval) : bool :=
  match prev with
  | [] => true
  | p :: prev' =>
      let n := match next with n :: _ => n | [] => DUndef end in
      if negb (cmp n p) then false
      else hook_inputs_loop cmp (tl next) prev'
  end.

Definition areHookInputsEqual (has_Object_is : bool)
    (nextDeps prevDeps : DependencyList) : bool :=
  match nextDeps, prevDeps with
  | Some next, Some prev =>
      if negb (length prev =? length next)%nat then false
      else hook_inputs_loop (objectIs has_Object_is) next prev
  | _, _ => false
  end.

Definition areDependenciesEqual (has_Object_is : bool)
    (nextDeps prevDeps : DependencyList) : bool :=
  areHookInputsEqual has_Object_is nextDeps prevDeps.

(** *** Worklets and the dependency builder *)

(** The fields of [WorkletFunction] that the builders read.  The hash is
    a non-negative integer; it is optional in the type.  The builders read
    it through [Number.prototype.toString] only, which is a parameter
    [Number_toString] of the definitions below: nothing is assumed about
    the text it gives (all the decimal digits of an integer below 2^53, a
    rounded text above). *)
Record WorkletFunction := mkWorklet {
  __workletHash : option N;
  _closure : dval;
}.

(** [worklet.__workletHash!.toString()]: the non-null assertion is erased
    at run time, so a missing hash raises. *)
Definition hash_toString (Number_toString : N -> string)
    (w : WorkletFunction) : outcome string :=
  match __workletHash w with
  | Some h => Ok (Number_toString h)
  | None => Throw (TypeError "Cannot read properties of undefined (reading 'toString')")
  end.

(** [Object.values(handlers).reduce((acc, worklet) => acc + hash, '')],
    on the list of values in enumeration order. *)
Fixpoint reduce_hashes (Number_toString : N -> string) (acc : string)
    (ws : list WorkletFunction) : outcome string :=
  match ws with
  | [] => Ok acc
  | w :: ws' =>
      obind (hash_toString Number_toString w) (fun s =>
        reduce_hashes Number_toString (acc +:+ s) ws')
  end.

Definition buildWorkletsHash (Number_toString : N -> string)
    (handlers : list WorkletFunction) : outcome string :=
  reduce_hashes Number_toString EmptyString handlers.

(** Cells of the store: arrays, and the [{workletHash, closure}] records
    that the automatic branch allocates. *)
Inductive cell :=
| CArr (items : list dval)
| CRec (workletHash : option N) (closure : dval).

Definition heap := gmap addr cell.

Definition fresh (h : heap) : addr := fresh (dom h).

(** [Object.values(handlers).filter((handler) => handler !== undefined)];
    [handlers] is the record in enumeration order. *)
Definition handlersList (handlers : list (string * option WorkletFunction))
    : list WorkletFunction :=
  omap snd handlers.

(** [handlersList.map(handler => ({workletHash, closure}))]: one fresh
    record per handler. *)
Fixpoint alloc_records (ws : list WorkletFunction) (h : heap)
    : list dval * heap :=
  match ws with
  | [] => ([], h)
  | w :: ws' =>
      let a := fresh h in
      let h1 := <[a := CRec (__workletHash w) (_closure w)]> h in
      let '(rs, h2) := alloc_records ws' h1 in
      (DRef a :: rs, h2)
  end.

(** [buildDependencies(dependencies, handlers)].  [dependencies] is
    [undefined] or a reference to the caller's array; the result is the
    reference returned and the store after the call. *)
Definition buildDependencies (Number_toString : N -> string)
    (dependencies : option addr)
    (handlers : list (string * option WorkletFunction)) (h : heap)
    : outcome (addr * heap) :=
  let hl := handlersList handlers in
  match dependencies with
  | None =>
      let '(rs, h1) := alloc_records hl h in
      let a := fresh h1 in
      Ok (a, <[a := CArr rs]> h1)
  | Some a =>
      match h !! a with
      | Some (CArr items) =>
          obind (buildWorkletsHash Number_toString hl) (fun s =>
            Ok (a, <[a := CArr (items ++ [DStr s])]> h))
      | _ => Stuck
      end
  end.

(** *** Optimisation flags *)

(** ToInt32 of an integer, the conversion that [&] applies to its
    operands. *)
Definition to_int32 (z : Z) : Z :=
  let m := (z mod 2 ^ 32)%Z in
  if (m <? 2 ^ 31)%Z then m else (m - 2 ^ 32)%Z.

Definition FUNCTIONLESS_FLAG : Z := 1.
Definition STATEMENTLESS_FLAG : Z := 2.

(** [optimalization & flag]; [optimalization] is the integer held in
    [__optimalization], or [undefined] ([None]), which [&] reads as 0. *)
Definition flag_and (optimalization : option Z) (flag : Z) : Z :=
  Z.land (to_int32 (default 0%Z optimalization)) (to_int32 flag).

(** [canApplyOptimalisation(upadterFn)], on the value of
    [upadterFn.__optimalization]: [a && b] is [a] when [a] is 0. *)
Definition canApplyOptimalisation (optimalization : option Z) : Z :=
  let a := flag_and optimalization FUNCTIONLESS_FLAG in
  if (a =? 0)%Z then a else flag_and optimalization STATEMENTLESS_FLAG.

End Deps.

(** ** Property trees

    Values of the style engine.  Container objects and arrays coming from
    the producer are only ever read by the code, so they are immutable
    trees.  Animation objects (the ones the code mutates: [callStart],
    [timestamp], [finished], and whatever [onStart] and [onFrame] write)
    are shared between the producer result, [state.animations] and
    [state.last]; they live in a store and occur in trees as references
    [VAnim].

    Own properties are kept in enumeration order: integer-like names
    ([KIdx]) in ascending order first, then the other names ([KStr]) in
    insertion order.  An array is an object with the array flag set, its
    elements being its [KIdx] properties.  Inherited and builtin
    properties ([length], prototype methods) are not modelled: reading
    one gives [undefined]. *)

Module Style.

(** Addresses of the store, and identities of host functions (an
    [onStart], [onFrame] or [callback]). *)
Abbreviation loc := nat (only parsing).
Abbreviation fn := nat (only parsing).

Inductive key :=
| KIdx (i : nat)
| KStr (s : string).

#[global] Instance key_eq_dec : EqDecision key.
Proof. solve_decision. Defined.
#[global] Arguments key_eq_dec : simpl never.

Inductive value :=
| VUndef
| VNull
| VBool (b : bool)
| VNum (x : Num.number)
| VStr (s : string)
| VFun (f : fn)
(** the closure [(timestamp) => animation.onStart(animation, value,
    timestamp, lastAnimation)] that [prepareAnimation] stores in
    [callStart] *)
| VStart (animation : loc) (seed : value) (lastAnimation : value)
| VObj (is_array : bool) (fields : list (key * value))
| VAnim (l : loc).

Abbreviation fields := (list (key * value)) (only parsing).
Abbreviation store := (gmap nat (list (key * value))) (only parsing).

(** *** Own properties *)

Fixpoint lookup_field (k : key) (fs : fields) : option value :=
  match fs with
  | [] => None
  | (k', v) :: fs' => if decide (k' = k) then Some v else lookup_field k fs'
  end.

Definition has_field (k : key) (fs : fields) : bool :=
  match lookup_field k fs with Some _ => true | None => false end.

Fixpoint replace_field (k : key) (v : value) (fs : fields) : fields :=
  match fs with
  | [] => []
  | (k', v') :: fs' =>
      if decide (k' = k) then (k, v) :: fs'
      else (k', v') :: replace_field k v fs'
  end.

(** Position of a new integer-like name: after the smaller ones. *)
Fixpoint insert_index (i : nat) (v : value) (fs : fields) : fields :=
  match fs with
  | (KIdx j, v') :: fs' =>
      if (j <? i)%nat then (KIdx j, v') :: insert_index i v fs'
      else (KIdx i, v) :: fs
  | _ => (KIdx i, v) :: fs
  end.

(** [o[k] = v] on the own properties of [o]. *)
Definition set_field (k : key) (v : value) (fs : fields) : fields :=
  if has_field k fs then replace_field k v fs
  else match k with
       | KIdx i => insert_index i v fs
       | KStr _ => (fs ++ [(k, v)])%list
       end.

(** [delete o[k]]. *)
Fixpoint delete_field (k : key) (fs : fields) : fields :=
  match fs with
  | [] => []
  | (k', v) :: fs' =>
      if decide (k' = k) then fs' else (k', v) :: delete_field k fs'
  end.

Definition keys_of (fs : fields) : list key := map fst fs.

(** An array literal. *)
Definition indexed (vs : list value) : fields :=
  imap (fun i v => (KIdx i, v)) vs.
Definition arr (vs : list value) : value := VObj true (indexed vs).
Definition obj (fs : list (string * value)) : value :=
  VObj false (map (fun '(s, v) => (KStr s, v)) fs).

(** *** Primitive operations of the language *)

Definition is_undefined (v : value) : bool :=
  match v with VUndef => true | _ => false end.

(** [v ?? d] *)
Definition nullish_or (v d : value) : value :=
  match v with VUndef | VNull => d | _ => v end.

Definition truthy (v : value) : bool :=
  match v with
  | VUndef | VNull => false
  | VBool b => b
  | VNum x =>
      match x with
      | S754_zero _ | S754_nan => false
      | _ => true
      end
  | VStr s => negb (String.eqb s EmptyString)
  | _ => true
  end.

Definition typeof (v : value) : string :=
  match v with
  | VUndef => "undefined"
  | VNull => "object"
  | VBool _ => "boolean"
  | VNum _ => "number"
  | VStr _ => "string"
  | VFun _ | VStart _ _ _ => "function"
  | VObj _ _ | VAnim _ => "object"
  end.

(** [typeof v === 'object'] *)
Definition typeof_object (v : value) : bool :=
  String.eqb (typeof v) "object".

Definition isArray (v : value) : bool :=
  match v with VObj true _ => true | _ => false end.

Definition string_char (s : string) (i : nat) : value :=
  match String.get i s with
  | Some c => VStr (String c EmptyString)
  | None => VUndef
  end.

Definition read_error (k : key) : error :=
  TypeError "Cannot read properties of undefined or null".

(** [v[k]]: reading a property of [undefined] or [null] raises. *)
Definition get_prop (st : store) (v : value) (k : key) : outcome value :=
  match v with
  | VUndef | VNull => Throw (read_error k)
  | VObj _ fs => Ok (default VUndef (lookup_field k fs))
  | VAnim l =>
      match st !! l with
      | Some fs => Ok (default VUndef (lookup_field k fs))
      | None => Stuck
      end
  | VStr s =>
      match k with
      | KIdx i => Ok (string_char s i)
      | KStr _ => Ok VUndef
      end
  | _ => Ok VUndef
  end.

(** [v?.k] *)
Definition opt_get (st : store) (v : value) (k : key) : outcome value :=
  match v with
  | VUndef | VNull => Ok VUndef
  | _ => get_prop st v k
  end.

(** [v && v[k]] *)
Definition and_get (st : store) (v : value) (k : key) : outcome value :=
  if truthy v then get_prop st v k else Ok v.

(** The names visited by [for (const key in v)]; nothing for
    [undefined], [null] and the other primitives. *)
Definition keys_in (st : store) (v : value) : outcome (list key) :=
  match v with
  | VObj _ fs => Ok (keys_of fs)
  | VAnim l =>
      match st !! l with
      | Some fs => Ok (keys_of fs)
      | None => Stuck
      end
  | VStr s => Ok (map KIdx (seq 0 (String.length s)))
  | _ => Ok []
  end.

(** [Object.keys(v)]: as [for in], but [undefined] and [null] raise. *)
Definition Object_keys (st : store) (v : value) : outcome (list key) :=
  match v with
  | VUndef | VNull =>
      Throw (TypeError "Cannot convert undefined or null to object")
  | _ => keys_in st v
  end.

(** The elements of an array, with their indices. *)
Fixpoint elements (fs : fields) : list (nat * value) :=
  match fs with
  | (KIdx i, v) :: fs' => (i, v) :: elements fs'
  | _ :: fs' => elements fs'
  | [] => []
  end.

(** [a !== b].  Two container trees are reported different; the only
    use, in [styleDiff], is in conjunction with the comparison of their
    JSON texts, which is equal for one and the same object. *)
Definition strict_neq (a b : value) : bool :=
  match a, b with
  | VUndef, VUndef => false
  | VNull, VNull => false
  | VBool x, VBool y => negb (Bool.eqb x y)
  | VNum x, VNum y => Num.neq x y
  | VStr x, VStr y => negb (String.eqb x y)
  | VFun f, VFun g => negb (Nat.eqb f g)
  | VAnim l, VAnim l' => negb (Nat.eqb l l')
  | _, _ => true
  end.

Notation "'let*' x := m 'in' k" := (obind m (fun x => k))
  (at level 10, x name, m at level 100, k at level 200).
Notation "'let*' ' p := m 'in' k" := (obind m (fun p => k))
  (at level 10, p strict pattern, m at level 100, k at level 200).

(** [for (...) { if (f x) return true; } return false] *)
Fixpoint any_o {A} (f : A -> outcome bool) (l : list A) : outcome bool :=
  match l with
  | [] => Ok false
  | x :: l' =>
      let* b := f x in
      if b then Ok true else any_o f l'
  end.

(** *** Style differ ([utils.ts]) *)

Definition k_onFrame := KStr "onFrame".

(** The inner loop of [isAnimated]:
    [for (const key in item) if (item[key].onFrame !== undefined) return true]. *)
Definition item_animated (st : store) (item : value) : outcome bool :=
  let* ks := keys_in st item in
  any_o (fun k =>
           let* v := get_prop st item k in
           let* f := get_prop st v k_onFrame in
           Ok (negb (is_undefined f))) ks.

Definition isAnimated (st : store) (prop : value) : outcome bool :=
  match prop with
  | VObj true fs => any_o (fun e => item_animated st (snd e)) (elements fs)
  | _ =>
      let* f := opt_get st prop k_onFrame in
      Ok (negb (is_undefined f))
  end.

(** [for (const key in newStyle)] of [getStyleWithoutAnimations], on the
    remaining keys, [diff] being the object under construction. *)
Fixpoint without_animations_loop (st : store) (newStyle : value)
    (ks : list key) (diff : fields) : outcome fields :=
  match ks with
  | [] => Ok diff
  | k :: ks' =>
      let* v := get_prop st newStyle k in
      let* a := isAnimated st v in
      if a then without_animations_loop st newStyle ks' diff
      else without_animations_loop st newStyle ks' (set_field k v diff)
  end.

Definition getStyleWithoutAnimations (st : store) (newStyle : value)
    : outcome value :=
  let* ks := keys_in st newStyle in
  let* diff := without_animations_loop st newStyle ks [] in
  Ok (VObj false diff).

Definition typeof_message (v : value) : string :=
  "useAnimatedStyle has to return an object, found " +:+ typeof v
  +:+ " instead".

Definition static_styles_message : string :=
  "useAnimatedStyle has to return an object and cannot return static styles combined with dynamic ones. Please do merging where a component receives props.".

Definition validateAnimatedStyles (styles : value) : outcome unit :=
  if negb (String.eqb (typeof styles) "object") then
    Throw (Error (typeof_message styles))
  else if isArray styles then
    Throw (Error static_styles_message)
  else Ok tt.

Section Differ.

(** [JSON.stringify], a builtin of the engine: its result is a text or
    [undefined]. *)
Variable JSON_stringify : store -> value -> option string.

Definition json_neq (st : store) (a b : value) : bool :=
  negb (bool_decide (JSON_stringify st a = JSON_stringify st b)).

(** First loop of [styleDiff]: removal markers. *)
Fixpoint removed_loop (st : store) (newStyle : value) (ks : list key)
    (diff : fields) : outcome fields :=
  match ks with
  | [] => Ok diff
  | k :: ks' =>
      let* v := get_prop st newStyle k in
      if is_undefined v
      then removed_loop st newStyle ks' (set_field k VNull diff)
      else removed_loop st newStyle ks' diff
  end.

(** Second loop of [styleDiff]: changed static values. *)
Fixpoint changed_loop (st : store) (oldStyle newStyle : value)
    (ks : list key) (diff : fields) : outcome fields :=
  match ks with
  | [] => Ok diff
  | k :: ks' =>
      let* v := get_prop st newStyle k in
      let* oldValue := get_prop st oldStyle k in
      let* a := isAnimated st v in
      if a then changed_loop st oldStyle newStyle ks' diff
      else if strict_neq oldValue v && json_neq st oldValue v
      then changed_loop st oldStyle newStyle ks' (set_field k v diff)
      else changed_loop st oldStyle newStyle ks' diff
  end.

Definition styleDiff (st : store) (oldStyle newStyle : value)
    : outcome value :=
  let* oks := Object_keys st oldStyle in
  let* diff1 := removed_loop st newStyle oks [] in
  let* nks := Object_keys st newStyle in
  let* diff2 := changed_loop st oldStyle newStyle nks diff1 in
  Ok (VObj false diff2).

End Differ.

(** *** The world of the style engine

    The store of animation objects and the trace of the calls made to
    the outside: the animation callbacks, the commit sink and the frame
    scheduler. *)

Inductive event :=
| EOnStart (f : fn) (animation : loc) (seed timestamp lastAnimation : value)
| EOnFrame (f : fn) (animation : loc) (timestamp : value)
| ECallback (f : fn) (finished : bool)
(** [updateProps(viewDescriptors, props, maybeViewRef)] *)
| EUpdateProps (props : value)
(** [updatePropsJestWrapper(viewDescriptors, props, ...)] *)
| EUpdatePropsJest (props : value)
(** [requestFrame(frame)] *)
| ERequestFrame.

Record world := mkWorld {
  w_store : store;
  w_trace : list event;
}.

Definition emit (e : event) (w : world) : world :=
  {| w_store := w_store w; w_trace := w_trace w ++ [e] |}.

(** [animation.k = v] on the animation object at [l]. *)
Definition set_anim (l : loc) (k : key) (v : value) (w : world)
    : outcome world :=
  match w_store w !! l with
  | Some fs =>
      Ok {| w_store := <[l := set_field k v fs]> (w_store w);
            w_trace := w_trace w |}
  | None => Stuck
  end.

(** The bodies of the animation callbacks, supplied by the animation
    definitions: what [onStart(animation, value, timestamp,
    previousAnimation)] and [onFrame(animation, timestamp)] write to the
    store, and the value [onFrame] returns. *)
Record Host := mkHost {
  onStart_body : fn -> loc -> value -> value -> value -> store -> store;
  onFrame_body : fn -> loc -> value -> store -> bool * store;
}.

Definition k_current := KStr "current".
Definition k_value := KStr "value".
Definition k_onStart := KStr "onStart".
Definition k_callStart := KStr "callStart".
Definition k_finished := KStr "finished".
Definition k_timestamp := KStr "timestamp".
Definition k_callback := KStr "callback".

Definition is_function (v : value) : bool :=
  match v with VFun _ | VStart _ _ _ => true | _ => false end.

(** The start value chosen by [prepareAnimation] (lines 281-300);
    [current] is [animation.current]. *)
Definition seed_value (st : store) (current lastAnimation lastValue : value)
    : outcome value :=
  if negb (is_undefined lastValue) then
    if typeof_object lastValue then
      let* v := get_prop st lastValue k_value in
      if negb (is_undefined v) then Ok v
      else
        let* f := get_prop st lastValue k_onFrame in
        if negb (is_undefined f) then
          let* c := opt_get st lastAnimation k_current in
          if negb (is_undefined c) then Ok c
          else
            let* c' := opt_get st lastValue k_current in
            if negb (is_undefined c') then Ok c' else Ok current
        else Ok current
    else Ok lastValue
  else Ok current.

Section Walker.

Variable host : Host.

(** [animation.onStart(animation, value, timestamp, lastAnimation)] *)
Definition call_onStart (animation : loc)
    (seed timestamp lastAnimation : value) (w : world) : outcome world :=
  let* f := get_prop (w_store w) (VAnim animation) k_onStart in
  match f with
  | VFun g =>
      Ok {| w_store := onStart_body host g animation seed timestamp
                         lastAnimation (w_store w);
            w_trace := w_trace w
                       ++ [EOnStart g animation seed timestamp lastAnimation] |}
  | VStart _ _ _ => Stuck
  | _ => Throw (TypeError "animation.onStart is not a function")
  end.

(** [animation.callStart(timestamp)], [c] being the value of the
    property. *)
Definition call_callStart (c : value) (timestamp : value) (w : world)
    : outcome world :=
  match c with
  | VStart l seed lastAnimation => call_onStart l seed timestamp lastAnimation w
  | VFun _ => Stuck
  | _ => Throw (TypeError "animation.callStart is not a function")
  end.

(** Lines 278-306 for an animation object of the store. *)
Definition prepare_terminal (now : value) (l : loc)
    (lastAnimation lastValue : value) (w : world) : outcome world :=
  let* current := get_prop (w_store w) (VAnim l) k_current in
  let* value := seed_value (w_store w) current lastAnimation lastValue in
  let* w1 := set_anim l k_callStart (VStart l value lastAnimation) w in
  let* c := get_prop (w_store w1) (VAnim l) k_callStart in
  let* w2 := call_callStart c now w1 in
  set_anim l k_callStart VNull w2.

(** The same lines for an object held in a tree.  Such an object
    carries no function of the store, so the call of [onStart] raises;
    an object that does carry one is outside the model. *)
Definition prepare_inline (fs : fields) (lastAnimation lastValue : value)
    (w : world) : outcome world :=
  let current := default VUndef (lookup_field k_current fs) in
  let* value := seed_value (w_store w) current lastAnimation lastValue in
  if is_function (default VUndef (lookup_field k_onStart fs)) then Stuck
  else Throw (TypeError "animation.onStart is not a function").

Definition is_index (k : key) : bool :=
  match k with KIdx _ => true | KStr _ => false end.

(** The two traversals of [prepareAnimation], [animatedProp.forEach]
    (elements only) and [Object.keys(animatedProp).forEach], with [rec] the
    recursive call. *)
Definition prepare_each
    (rec : value -> value -> value -> world -> outcome world)
    (lastAnimation lastValue : value)
    : bool -> fields -> world -> outcome world :=
  fix each (only_elements : bool) (ps : fields) (w : world) : outcome world :=
    match ps with
    | [] => Ok w
    | (k, prop) :: ps' =>
        if only_elements && negb (is_index k)
        then each only_elements ps' w
        else
          let* la := and_get (w_store w) lastAnimation k in
          let* lv := and_get (w_store w) lastValue k in
          let* w1 := rec prop la lv w in
          each only_elements ps' w1
    end.

(** [prepareAnimation(animatedProp, lastAnimation, lastValue)];
    [now] is the result of [getTimestamp()]. *)
Fixpoint prepareAnimation (now : value)
    (animatedProp lastAnimation lastValue : value) (w : world)
    {struct animatedProp} : outcome world :=
  match animatedProp with
  | VObj is_arr fs =>
      let each := prepare_each (prepareAnimation now) lastAnimation lastValue in
      (* if (Array.isArray(animatedProp)) animatedProp.forEach(...) *)
      let* w1 := if is_arr then each true fs w else Ok w in
      if truthy (default VUndef (lookup_field k_onFrame fs))
      then prepare_inline fs lastAnimation lastValue w1
      else
        (* Object.keys(animatedProp).forEach(...) *)
        each false fs w1
  | VAnim l =>
      let* f := get_prop (w_store w) animatedProp k_onFrame in
      if truthy f then prepare_terminal now l lastAnimation lastValue w
      else Stuck
  | VNull =>
      (* typeof null === 'object', then null.onFrame *)
      Throw (read_error k_onFrame)
  | _ => Ok w
  end.

End Walker.

(** [target[k] = v] and [delete target[k]] on a container owned by the
    updater ([state.last], [state.animations]). *)
Definition set_prop (target : value) (k : key) (v : value) : outcome value :=
  match target with
  | VObj a fs => Ok (VObj a (set_field k v fs))
  | VUndef | VNull =>
      Throw (TypeError "Cannot set properties of undefined or null")
  | VAnim _ => Stuck
  | _ => Throw (TypeError "Cannot create property on a primitive value")
  end.

Definition delete_prop (target : value) (k : key) : outcome value :=
  match target with
  | VObj a fs => Ok (VObj a (delete_field k fs))
  | VUndef | VNull =>
      Throw (TypeError "Cannot convert undefined or null to object")
  | VAnim _ => Stuck
  | _ => Ok target
  end.

Section Runner.

Variable host : Host.
(** [animationsActive.value] *)
Variable active : bool.

(** [finished = animation.onFrame(animation, timestamp)] *)
Definition call_onFrame (l : loc) (timestamp : value) (w : world)
    : outcome (bool * world) :=
  let* f := get_prop (w_store w) (VAnim l) k_onFrame in
  match f with
  | VFun g =>
      let '(finished, st') := onFrame_body host g l timestamp (w_store w) in
      Ok (finished,
          {| w_store := st';
             w_trace := w_trace w ++ [EOnFrame g l timestamp] |})
  | VStart _ _ _ => Stuck
  | _ => Throw (TypeError "animation.onFrame is not a function")
  end.

(** [animation.callback && animation.callback(true)] *)
Definition call_callback (l : loc) (w : world) : outcome world :=
  let* cb := get_prop (w_store w) (VAnim l) k_callback in
  if truthy cb then
    match cb with
    | VFun c => Ok (emit (ECallback c true) w)
    | VStart _ _ _ => Stuck
    | _ => Throw (TypeError "animation.callback is not a function")
    end
  else Ok w.

(** Lines 342-356 for an animation object of the store; [result] are
    the properties of the object being filled. *)
Definition run_terminal (l : loc) (timestamp : value) (key : key)
    (result : fields) (w : world) : outcome (bool * fields * world) :=
  let* fin := get_prop (w_store w) (VAnim l) k_finished in
  let* '(finished, w') :=
    if negb (truthy fin) then
      let* cs := get_prop (w_store w) (VAnim l) k_callStart in
      let* w1 :=
        if truthy cs then
          let* w0 := call_callStart host cs timestamp w in
          set_anim l k_callStart VNull w0
        else Ok w in
      let* '(finished, w2) := call_onFrame l timestamp w1 in
      let* w3 := set_anim l k_timestamp timestamp w2 in
      if finished then
        let* w4 := set_anim l k_finished (VBool true) w3 in
        let* w5 := call_callback l w4 in
        Ok (true, w5)
      else Ok (false, w3)
    else Ok (true, w) in
  let* current := get_prop (w_store w') (VAnim l) k_current in
  Ok (finished, set_field key current result, w').

(** The same lines for an object held in a tree: a finished one is
    read; an unfinished one makes a call, which raises unless the
    object carries a function (outside the model). *)
Definition run_inline (fs : fields) (key : key) (result : fields)
    (w : world) : outcome (bool * fields * world) :=
  let field k := default VUndef (lookup_field k fs) in
  if negb (truthy (field k_finished)) then
    if truthy (field k_callStart) then
      if is_function (field k_callStart) then Stuck
      else Throw (TypeError "animation.callStart is not a function")
    else
      if is_function (field k_onFrame) then Stuck
      else Throw (TypeError "animation.onFrame is not a function")
  else Ok (true, set_field key (field k_current) result, w).

(** The traversals of [runAnimations], [animation.forEach] (elements
    only) and [Object.keys(animation).forEach], with [rec] the recursive
    call; [sub] are the properties of [result[key]]. *)
Definition run_each
    (rec : value -> value -> key -> fields -> world
           -> outcome (bool * fields * world))
    (timestamp : value) (only_elements : bool)
    : fields -> bool -> fields -> world -> outcome (bool * fields * world) :=
  fix each (ps : fields) (allFinished : bool) (sub : fields) (w : world)
      : outcome (bool * fields * world) :=
    match ps with
    | [] => Ok (allFinished, sub, w)
    | (k, entry) :: ps' =>
        if only_elements && negb (is_index k)
        then each ps' allFinished sub w
        else
          let* '(fin, sub1, w1) := rec entry timestamp k sub w in
          each ps' (if negb fin then false else allFinished) sub1 w1
    end.

(** [runAnimations(animation, timestamp, key, result, animationsActive)]:
    the boolean returned, the properties of [result] and the world
    after the call. *)
Fixpoint runAnimations (animation : value) (timestamp : value)
    (key : key) (result : fields) (w : world) {struct animation}
    : outcome (bool * fields * world) :=
  if negb active then Ok (true, result, w)
  else
    match animation with
    | VObj is_arr fs =>
        if is_arr then
          (* result[key] = []; animation.forEach((entry, index) => ...) *)
          let* '(allFinished, sub, w1) :=
            run_each runAnimations timestamp true fs true [] w in
          Ok (allFinished, set_field key (VObj true sub) result, w1)
        else if truthy (default VUndef (lookup_field k_onFrame fs)) then
          run_inline fs key result w
        else
          (* result[key] = {}; Object.keys(animation).forEach((k) => ...) *)
          let* '(allFinished, sub, w1) :=
            run_each runAnimations timestamp false fs true [] w in
          Ok (allFinished, set_field key (VObj false sub) result, w1)
    | VAnim l =>
        let* f := get_prop (w_store w) animation k_onFrame in
        if truthy f then run_terminal l timestamp key result w
        else Stuck
    | VNull =>
        (* typeof null === 'object', then null.onFrame *)
        Throw (read_error k_onFrame)
    | _ => Ok (true, set_field key animation result, w)
    end.

End Runner.

(** *** Style updater ([useAnimatedStyle.ts]) *)

(** [AnimatedState]; the two flags start out [undefined], which the code
    only tests for truth, hence [false]. *)
Record AnimatedState := mkState {
  last : value;
  animations : value;
  isAnimationRunning : bool;
  isAnimationCancelled : bool;
}.

(** Own enumerable properties that [Object.assign] copies from a
    source; [undefined], [null] and the other primitives give none. *)
Definition own_fields (st : store) (src : value) : outcome fields :=
  match src with
  | VObj _ fs => Ok fs
  | VAnim l =>
      match st !! l with
      | Some fs => Ok fs
      | None => Stuck
      end
  | VStr s => Ok (indexed (map (string_char s) (seq 0 (String.length s))))
  | _ => Ok []
  end.

Definition assign_fields (target src : fields) : fields :=
  fold_left (fun acc kv => set_field (fst kv) (snd kv) acc) src target.

(** [Object.assign({}, a, b)] *)
Definition Object_assign2 (st : store) (a b : value) : outcome value :=
  let* fa := own_fields st a in
  let* fb := own_fields st b in
  Ok (VObj false (assign_fields (assign_fields [] fa) fb)).

Section Updater.

Variable host : Host.
Variable JSON_stringify : store -> value -> option string.
(** [animationsActive.value] *)
Variable active : bool.

(** The loop of [frame] over the names of [animations] (the same in
    both updaters). *)
Fixpoint frame_loop (timestamp : value) (ks : list key)
    (animations last : value) (updates : fields) (allFinished : bool)
    (w : world) : outcome (value * value * fields * bool * world) :=
  match ks with
  | [] => Ok (animations, last, updates, allFinished, w)
  | propName :: ks' =>
      let* a := get_prop (w_store w) animations propName in
      let* '(finished, updates1, w1) :=
        runAnimations host active a timestamp propName updates w in
      if finished then
        let* last1 :=
          set_prop last propName
            (default VUndef (lookup_field propName updates1)) in
        let* animations1 := delete_prop animations propName in
        frame_loop timestamp ks' animations1 last1 updates1 allFinished w1
      else
        frame_loop timestamp ks' animations last updates1 false w1
  end.

(** The continuation [frame] of [styleUpdater]. *)
Definition frame (timestamp : value) (state : AnimatedState) (w : world)
    : outcome (AnimatedState * world) :=
  if isAnimationCancelled state then
    Ok (mkState (last state) (animations state) false
          (isAnimationCancelled state), w)
  else
    let* ks := keys_in (w_store w) (animations state) in
    let* '(animations1, last1, updates, allFinished, w1) :=
      frame_loop timestamp ks (animations state) (last state) [] true w in
    let w2 := emit (EUpdateProps (VObj false updates)) w1 in
    if negb allFinished then
      Ok (mkState last1 animations1 (isAnimationRunning state)
            (isAnimationCancelled state), emit ERequestFrame w2)
    else
      Ok (mkState last1 animations1 false (isAnimationCancelled state), w2).

(** The continuation [frame] of [jestStyleUpdater]. *)
Definition jest_frame (timestamp : value) (state : AnimatedState)
    (w : world) : outcome (AnimatedState * world) :=
  if isAnimationCancelled state then
    Ok (mkState (last state) (animations state) false
          (isAnimationCancelled state), w)
  else
    let* ks := Object_keys (w_store w) (animations state) in
    let* '(animations1, last1, updates, allFinished, w1) :=
      frame_loop timestamp ks (animations state) (last state) [] true w in
    let w2 :=
      if negb (length updates =? 0)%nat
      then emit (EUpdatePropsJest (VObj false updates)) w1 else w1 in
    if negb allFinished then
      Ok (mkState last1 animations1 (isAnimationRunning state)
            (isAnimationCancelled state), emit ERequestFrame w2)
    else
      Ok (mkState last1 animations1 false (isAnimationCancelled state), w2).

(** Lines 393-402: the loop of [styleUpdater] over the names of
    [newValues]. *)
Fixpoint classify_loop (now : value) (newValues oldValues : value)
    (ks : list key) (animations : value) (hasAnimations : bool)
    (w : world) : outcome (value * bool * world) :=
  match ks with
  | [] => Ok (animations, hasAnimations, w)
  | key :: ks' =>
      let* value := get_prop (w_store w) newValues key in
      let* a := isAnimated (w_store w) value in
      if a then
        let* la := get_prop (w_store w) animations key in
        let* lv := get_prop (w_store w) oldValues key in
        let* w1 := prepareAnimation host now value la lv w in
        let* animations1 := set_prop animations key value in
        classify_loop now newValues oldValues ks' animations1 true w1
      else
        let* animations1 := delete_prop animations key in
        classify_loop now newValues oldValues ks' animations1
          hasAnimations w
  end.

(** Lines 388-402 of [styleUpdater]: the producer result is classified
    name by name; the result is [animations], [hasAnimations] and the world
    after the preparations. *)
Definition classify_new_values (produced now : value) (state : AnimatedState)
    (w : world) : outcome (value * bool * world) :=
  let animations0 := nullish_or (animations state) (VObj false []) in
  let newValues := nullish_or produced (VObj false []) in
  let oldValues := last state in
  let* ks := keys_in (w_store w) newValues in
  classify_loop now newValues oldValues ks animations0 false w.

(** [styleUpdater(viewDescriptors, updater, state, maybeViewRef,
    animationsActive)].  [produced] is the result of [updater()],
    [frameTimestamp] the global [_frameTimestamp], [now] the result of
    [getTimestamp()]. *)
Definition styleUpdater (produced frameTimestamp now : value)
    (state : AnimatedState) (w : world) : outcome (AnimatedState * world) :=
  let newValues := nullish_or produced (VObj false []) in
  let* '(animations1, hasAnimations, w1) :=
    classify_new_values produced now state w in
  if hasAnimations then
    let state1 :=
      mkState (last state) animations1 (isAnimationRunning state)
        (isAnimationCancelled state) in
    let* '(state2, w2) :=
      if negb (isAnimationRunning state1) then
        let state' := mkState (last state1) (animations state1) true false in
        if truthy frameTimestamp then frame frameTimestamp state' w1
        else Ok (state', emit ERequestFrame w1)
      else Ok (state1, w1) in
    (* [oldValues] is the object [frame] has written to *)
    let oldValues' := last state2 in
    let* merged := Object_assign2 (w_store w2) oldValues' newValues in
    let* style := getStyleWithoutAnimations (w_store w2) oldValues' in
    Ok (mkState merged (animations state2) (isAnimationRunning state2)
          (isAnimationCancelled state2),
        emit (EUpdateProps style) w2)
  else
    Ok (mkState (last state) (VObj true []) (isAnimationRunning state) true,
        emit (EUpdateProps newValues) w1).

(** Lines 479-484: names of [animations] that are no longer animated. *)
Fixpoint prune_loop (st : store) (newValues : value) (ks : list key)
    (animations : value) : outcome value :=
  match ks with
  | [] => Ok animations
  | key :: ks' =>
      let* value := get_prop st newValues key in
      let* a := isAnimated st value in
      if negb a then
        let* animations1 := delete_prop animations key in
        prune_loop st newValues ks' animations1
      else prune_loop st newValues ks' animations
  end.

(** Lines 485-492: the animated names of [newValues]. *)
Fixpoint extract_loop (now : value) (newValues oldValues : value)
    (ks : list key) (animations : value) (hasAnimations : bool)
    (w : world) : outcome (value * bool * world) :=
  match ks with
  | [] => Ok (animations, hasAnimations, w)
  | key :: ks' =>
      let* value := get_prop (w_store w) newValues key in
      let* a := isAnimated (w_store w) value in
      if a then
        let* la := get_prop (w_store w) animations key in
        let* lv := get_prop (w_store w) oldValues key in
        let* w1 := prepareAnimation host now value la lv w in
        let* animations1 := set_prop animations key value in
        extract_loop now newValues oldValues ks' animations1 true w1
      else
        extract_loop now newValues oldValues ks' animations hasAnimations w
  end.

(** [jestStyleUpdater(viewDescriptors, updater, state, maybeViewRef,
    animationsActive, animatedStyle, adapters)], with the parameters of
    [styleUpdater]. *)
Definition jestStyleUpdater (produced frameTimestamp now : value)
    (state : AnimatedState) (w : world) : outcome (AnimatedState * world) :=
  let animations0 := nullish_or (animations state) (VObj false []) in
  let newValues := nullish_or produced (VObj false []) in
  let oldValues := last state in
  let* aks := Object_keys (w_store w) animations0 in
  let* animations1 := prune_loop (w_store w) newValues aks animations0 in
  let* nks := Object_keys (w_store w) newValues in
  let* '(animations2, hasAnimations, w1) :=
    extract_loop now newValues oldValues nks animations1 false w in
  let* '(state2, w2) :=
    if hasAnimations then
      let state1 :=
        mkState (last state) animations2 (isAnimationRunning state)
          (isAnimationCancelled state) in
      if negb (isAnimationRunning state1) then
        let state' := mkState (last state1) (animations state1) true false in
        if truthy frameTimestamp then jest_frame frameTimestamp state' w1
        else Ok (state', emit ERequestFrame w1)
      else Ok (state1, w1)
    else
      Ok (mkState (last state) (VObj true []) (isAnimationRunning state)
            true, w1) in
  (* [oldValues] is the object [frame] has written to *)
  let oldValues' := last state2 in
  let* diff := styleDiff JSON_stringify (w_store w2) oldValues' newValues in
  let* merged := Object_assign2 (w_store w2) oldValues' newValues in
  let* dks := Object_keys (w_store w2) diff in
  Ok (mkState merged (animations state2) (isAnimationRunning state2)
        (isAnimationCancelled state2),
      if negb (length dks =? 0)%nat
      then emit (EUpdatePropsJest diff) w2 else w2).

End Updater.

(** Lines 595-609 of [useAnimatedStyle]: the state of the binding is
    created, and the producer result validated, only while
    [initRef.current] is unset.  [initialStyle] is the result of
    [initialUpdaterRun(updater)]. *)
Definition initRemoteState (initRef_current : option AnimatedState)
    (initialStyle : value) : outcome AnimatedState :=
  match initRef_current with
  | None =>
      let* _ := validateAnimatedStyles initialStyle in
      Ok (mkState initialStyle VUndef false false)
  | Some state => Ok state
  end.

(** *** Colour properties ([utils.ts]) *)

Section Colors.

(** [colorProps] of [UpdateProps] and [processColor] of [Colors]: the
    names of the colour-valued properties and the normalisation applied to
    their values. *)
Variable colorProps : list key.
Variable processColor : value -> value.

(** [colorPropsSet.has(key)], [colorProps.indexOf(key) !== -1] *)
Definition is_color_prop (k : key) : bool :=
  existsb (fun c => bool_decide (c = k)) colorProps.

(** [hasColorProps(updates)] *)
Definition hasColorProps (st : store) (updates : value) : outcome bool :=
  let* ks := keys_in st updates in
  Ok (existsb is_color_prop ks).

(** The loop of [parseColors] on the remaining names; [updates] is the
    object as written so far. *)
Fixpoint parseColors_loop (st : store) (ks : list key) (updates : value)
    : outcome value :=
  match ks with
  | [] => Ok updates
  | k :: ks' =>
      if is_color_prop k then
        let* v := get_prop st updates k in
        let* updates1 := set_prop updates k (processColor v) in
        parseColors_loop st ks' updates1
      else parseColors_loop st ks' updates
  end.

(** [parseColors(updates)]: the object after the in-place update. *)
Definition parseColors (st : store) (updates : value) : outcome value :=
  let* ks := keys_in st updates in
  parseColors_loop st ks updates.

End Colors.

End Style.

(** ** The hook [useAnimatedStyle]: dependency list and misuse check *)

Module Hook.
Import Style.

(** [Object.values(v)]: the own values in enumeration order; [undefined]
    and [null] raise. *)
Definition Object_values (st : store) (v : value) : outcome (list value) :=
  match v with
  | VUndef | VNull =>
      Throw (TypeError "Cannot convert undefined or null to object")
  | VObj _ fs => Ok (map snd fs)
  | VAnim l =>
      match st !! l with
      | Some fs => Ok (map snd fs)
      | None => Stuck
      end
  | VStr s => Ok (map (string_char s) (seq 0 (String.length s)))
  | _ => Ok []
  end.

(** [isObjectValid(element, key)] (lines 703-709): the boolean returned
    and [wrongKey] after the call. *)
Definition isObjectValid (st : store) (wrongKey : option key)
    (element : value) (key : key) : outcome (bool * option Style.key) :=
  let* result :=
    if typeof_object element then
      let* v := get_prop st element k_value in
      Ok (negb (is_undefined v))
    else Ok false in
  Ok (negb result, if result then Some key else wrongKey).

(** The loop [for (const elementArrayItem of element)] (lines 715-727) on
    the remaining elements of a dense array; [result] is the variable of
    the enclosing callback. *)
Fixpoint array_items_valid (st : store) (wrongKey : option key)
    (items : list value) (result : bool) (key : key)
    : outcome (bool * option Style.key) :=
  match items with
  | [] => Ok (result, wrongKey)
  | item :: items' =>
      if negb (typeof_object item) then Ok (result, wrongKey)
      else
        let* vals := Object_values st item in
        let objectValue := hd VUndef vals in
        let* '(result1, wrongKey1) :=
          isObjectValid st wrongKey objectValue key in
        if negb result1 then Ok (result1, wrongKey1)
        else array_items_valid st wrongKey1 items' result1 key
  end.

(** [Object.keys(initial.value).some((key) => ...)] (lines 710-732) on the
    remaining names: [isError] and [wrongKey]. *)
Fixpoint some_invalid (st : store) (initial : value) (ks : list key)
    (wrongKey : option key) : outcome (bool * option key) :=
  match ks with
  | [] => Ok (false, wrongKey)
  | key :: ks' =>
      let* element := get_prop st initial key in
      let* '(result, wrongKey1) :=
        match element with
        | VObj true fs =>
            array_items_valid st wrongKey (map snd (elements fs)) false key
        | _ => isObjectValid st wrongKey element key
        end in
      if negb result then Ok (true, wrongKey1)
      else some_invalid st initial ks' wrongKey1
  end.

Definition key_name (k : key) : string :=
  match k with
  | KStr s => s
  | KIdx i => pretty i
  end.

Definition invalid_value_message (k : key) : string :=
  "invalid value passed to `" +:+ key_name k
  +:+ "`, maybe you forgot to use `.value`?".

(** Lines 701-737 of [useAnimatedStyle]: the check for shared values left
    in the returned object; [initial] is [initial.value]. *)
Definition checkSharedValues (st : store) (initial : value) : outcome unit :=
  let* ks := Object_keys st initial in
  let* '(isError, wrongKey) := some_invalid st initial ks None in
  match wrongKey with
  | Some k => if isError then Throw (Error (invalid_value_message k)) else Ok tt
  | None => Ok tt
  end.

(** Lines 575-610 of [useAnimatedStyle]: the dependency list and the
    first-render initialisation between its pushes.  [inputs] are the
    values of the updater's closure, [workletHash] is
    [updater.__workletHash], [adapters] the adapter or adapters put in a
    list ([None] when absent), [initRef_current] is [initRef.current],
    [initialStyle] the result of [initialUpdaterRun(updater)],
    [descriptors] the value of the sharable view descriptors read at line
    610; [dependencies] is [undefined] or the caller's array.  The result
    is the store after the call, also when the call raises, with the
    array reference and the state of the binding when it returns. *)
Definition hookDependencies (Number_toString : N -> string)
    (inputs : list Deps.dval) (workletHash : Deps.dval)
    (adapters : option (list Deps.WorkletFunction))
    (initRef_current : option AnimatedState) (initialStyle : value)
    (descriptors : Deps.dval) (dependencies : option Deps.addr)
    (h : Deps.heap) : Deps.heap * outcome (Deps.addr * AnimatedState) :=
  (* const adaptersHash = adapters ? buildWorkletsHash(adaptersArray) : null *)
  match
    match adapters with
    | Some adaptersArray =>
        let* s := Deps.buildWorkletsHash Number_toString adaptersArray in
        Ok (Some s)
    | None => Ok None
    end
  with
  | Throw e => (h, Throw e)
  | Stuck => (h, Stuck)
  | Ok adaptersHash =>
      (* if (!dependencies) dependencies = [...inputs, hash]
         else dependencies.push(hash) *)
      match
        match dependencies with
        | None => Some (Deps.fresh h, inputs ++ [workletHash])
        | Some a =>
            match h !! a with
            | Some (Deps.CArr items) => Some (a, items ++ [workletHash])
            | _ => None
            end
        end
      with
      | None => (h, Stuck)
      | Some (a, items) =>
          (* adaptersHash && dependencies.push(adaptersHash) *)
          let items1 :=
            match adaptersHash with
            | Some s => if String.eqb s EmptyString then items
                        else items ++ [Deps.DStr s]
            | None => items
            end in
          let h1 := <[a := Deps.CArr items1]> h in
          (* if (!initRef.current) { validateAnimatedStyles(...); ... } *)
          match initRemoteState initRef_current initialStyle with
          | Throw e => (h1, Throw e)
          | Stuck => (h1, Stuck)
          | Ok state =>
              (* dependencies.push(sharableViewDescriptors.value) *)
              (<[a := Deps.CArr (items1 ++ [descriptors])]> h1,
               Ok (a, state))
          end
      end
  end.

End Hook.

(** ** Reference notions used in the statements *)

Module Reference.
Import Deps.

(** Position-wise comparison of two lists of the same length. *)
Definition pairwise (cmp : dval -> dval -> bool) (next prev : list dval)
    : bool :=
  forallb (fun p => cmp (fst p) (snd p)) (combine next prev).

(** The texts that [toString] gives for the hashes, one after the
    other. *)
Definition aggregate_hash (Number_toString : N -> string) (hashes : list N)
    : string :=
  fold_right (fun h s => Number_toString h +:+ s) EmptyString hashes.

(** A handler without [__workletHash]. *)
Definition hashless (w : WorkletFunction) : bool :=
  match __workletHash w with None => true | Some _ => false end.

(** What one render appends to the dependency list after the worklet hash
    when the adapters carry the hashes [hashes] ([None]: no adapters):
    their hash text, unless it is the empty text. *)
Definition adapters_entry (Number_toString : N -> string)
    (hashes : option (list N)) : list dval :=
  match hashes with
  | None => []
  | Some hs =>
      if String.eqb (aggregate_hash Number_toString hs) EmptyString then []
      else [DStr (aggregate_hash Number_toString hs)]
  end.

Import Style.

(** What a suspended [frame] leaves in [last]: every name of [animations]
    holds [undefined]. *)
Definition blanked (ks : list key) (ls : fields) : fields :=
  fold_left (fun acc k => set_field k VUndef acc) ks ls.

(** A plain property map: an object that is not a sequence. *)
Definition plain_property_map (v : value) : bool :=
  match v with
  | VObj false _ | VAnim _ => true
  | _ => false
  end.

Definition is_null (v : value) : bool :=
  match v with VNull => true | _ => false end.

(** Seed resolution as section 4.1 of the specification words it, for a
    node whose declared value is [current], prepared against the previous
    animation node [la] and the previous value [lv]. *)
Inductive seed_rule (st : store) (current la lv : value) : value -> Prop :=
| seed_holder x :
    (* (a) the previous value is a holder exposing [.value] *)
    typeof_object lv = true -> get_prop st lv k_value = Ok x ->
    x <> VUndef -> seed_rule st current la lv x
| seed_in_flight f c :
    (* (b) the previous value was a Terminal: the previous animation
       node's in-flight [current], if present *)
    typeof_object lv = true -> get_prop st lv k_value = Ok VUndef ->
    get_prop st lv k_onFrame = Ok f -> f <> VUndef ->
    opt_get st la k_current = Ok c -> c <> VUndef ->
    seed_rule st current la lv c
| seed_own_current f c :
    (* (b) else the previous Terminal's own [current] *)
    typeof_object lv = true -> get_prop st lv k_value = Ok VUndef ->
    get_prop st lv k_onFrame = Ok f -> f <> VUndef ->
    opt_get st la k_current = Ok VUndef ->
    opt_get st lv k_current = Ok c -> c <> VUndef ->
    seed_rule st current la lv c
| seed_plain :
    (* (c) the previous value was a plain static value *)
    lv <> VUndef -> typeof_object lv = false ->
    seed_rule st current la lv lv
| seed_declared_absent :
    (* (d) no previous value *)
    lv = VUndef -> seed_rule st current la lv current
| seed_declared_no_current f :
    (* (d) a previous Terminal without any [current] *)
    typeof_object lv = true -> get_prop st lv k_value = Ok VUndef ->
    get_prop st lv k_onFrame = Ok f -> f <> VUndef ->
    opt_get st la k_current = Ok VUndef ->
    opt_get st lv k_current = Ok VUndef ->
    seed_rule st current la lv current
| seed_declared_other :
    (* (d) a previous object that is neither a holder nor a Terminal *)
    typeof_object lv = true -> get_prop st lv k_value = Ok VUndef ->
    get_prop st lv k_onFrame = Ok VUndef ->
    seed_rule st current la lv current.




(** Calls of the animation callbacks, as opposed to commits and frame
    requests. *)
Definition is_callback (e : event) : bool :=
  match e with
  | EOnStart _ _ _ _ _ | EOnFrame _ _ _ | ECallback _ _ => true
  | _ => false
  end.

(** [w'] continues the trace of [w] with calls of animation callbacks
    only. *)
Definition callbacks_only (w w' : world) : Prop :=
  exists evs, w_trace w' = w_trace w ++ evs
              /\ Forall (fun e => is_callback e = true) evs.

(** [isAnimated] returns [false] on the value. *)
Definition is_static (st : store) (v : value) : bool :=
  match isAnimated st v with Ok false => true | _ => false end.

(** The entries of a style with the colour-valued ones normalised. *)
Definition recolored (colorProps : list key) (processColor : value -> value)
    (fs : fields) : fields :=
  map (fun kv => if is_color_prop colorProps (fst kv)
                 then (fst kv, processColor (snd kv)) else kv) fs.

(** A top-level value that the misuse check of [useAnimatedStyle] passes
    over: not a sequence, and not an object exposing [.value]. *)
Definition plain_entry (st : store) (v : value) : bool :=
  negb (isArray v)
  && (negb (typeof_object v)
      || match get_prop st v k_value with Ok VUndef => true | _ => false end).

(** A top-level value that is an object exposing [.value], as a shared
    value passed without [.value] is. *)
Definition misused (st : store) (v : value) : bool :=
  negb (isArray v) && typeof_object v
  && match get_prop st v k_value with
     | Ok x => negb (is_undefined x)
     | _ => false
     end.

End Reference.

(** ** Sample inputs

    Concrete numbers, animation definitions, stores and states on which
    the properties below are exercised. *)

Module Samples.
Import Deps Style.

(** The double that represents an integer. *)
Definition of_Z (z : Z) : Num.number :=
  binary_normalize Num.prec Num.emax z 0 false.

Definition num (z : Z) : value := VNum (of_Z z).

(** [[1, NaN, -0]], [[1, NaN, 0]] and [[1, NaN]]. *)
Definition deps_neg_zero : list dval :=
  [DNum Num.one; DNum Num.NaN; DNum Num.nzero].
Definition deps_pos_zero : list dval :=
  [DNum Num.one; DNum Num.NaN; DNum Num.pzero].
Definition deps_nan : list dval := [DNum Num.one; DNum Num.NaN].

(** Two gesture handlers and an unset one, and a caller's dependency
    list [[1]] at address 0. *)
Definition sample_handlers : list (string * option WorkletFunction) :=
  [("onStart", Some (mkWorklet (Some 17%N) DUndef));
   ("onActive", None);
   ("onEnd", Some (mkWorklet (Some 4%N) DUndef))].
Definition sample_heap : heap := {[ 0%nat := CArr [DNum Num.one] ]}.

(** Animation definitions.  [onStart] (function 0) stores the seed in
    [current]; [onFrame] is function 1, which jumps to [toValue] and
    reports completion, or function 2, which never completes. *)
Definition fn_onStart : fn := 0%nat.
Definition fn_jump : fn := 1%nat.
Definition fn_never : fn := 2%nat.
Definition fn_done : fn := 3%nat.

Definition sample_host : Host :=
  {| onStart_body := fun _ l seed _ _ st =>
       match st !! l with
       | Some fs => <[l := set_field k_current seed fs]> st
       | None => st
       end;
     onFrame_body := fun f l _ st =>
       if decide (f = fn_jump) then
         match st !! l with
         | Some fs =>
             (true,
              <[l := set_field k_current
                       (default VUndef (lookup_field (KStr "toValue") fs)) fs]> st)
         | None => (true, st)
         end
       else (false, st) |}.

(** [JSON.stringify] on the trees of the samples.  [undefined] and
    functions have no text; [null], the booleans, NaN and the infinities
    ([null]) and integer-valued numbers below 2^53 in magnitude print as
    JavaScript prints them; strings are quoted (the samples hold no
    character that is escaped); an array prints its elements, [null]
    standing for one without text; an object prints its members that
    have a text, in enumeration order.  Numbers with a fraction or from
    2^53 on, and trees nested deeper than [json_depth], are outside the
    samples and get no text. *)
Definition integer_of (x : Num.number) : option Z :=
  match x with
  | S754_zero _ => Some 0%Z
  | S754_finite s m e =>
      let z := if (0 <=? e)%Z then (Z.pos m * 2 ^ e)%Z
               else (Z.pos m / 2 ^ (- e))%Z in
      if (0 <=? e)%Z || (Z.pos m mod 2 ^ (- e) =? 0)%Z
      then Some (if s then (- z)%Z else z)
      else None
  | _ => None
  end.

Definition json_number (x : Num.number) : option string :=
  match x with
  | S754_nan | S754_infinity _ => Some "null"
  | _ =>
      match integer_of x with
      | Some z => if (Z.abs z <? 2 ^ 53)%Z then Some (pretty z) else None
      | None => None
      end
  end.

(** The double quote is character 34. *)
Definition quoted (s : string) : string :=
  String (Ascii.ascii_of_nat 34)
    (s +:+ String (Ascii.ascii_of_nat 34) EmptyString).

Fixpoint comma_separated (ts : list string) : string :=
  match ts with
  | [] => EmptyString
  | [t] => t
  | t :: ts' => t +:+ "," +:+ comma_separated ts'
  end.

Fixpoint json_text (depth : nat) (st : store) (v : value) : option string :=
  match depth with
  | O => None
  | S d =>
      let members (fs : fields) : string :=
        "{" +:+ comma_separated
                  (omap (fun kv =>
                           match json_text d st (snd kv) with
                           | Some t =>
                               Some (quoted (Hook.key_name (fst kv))
                                     +:+ ":" +:+ t)
                           | None => None
                           end) fs)
        +:+ "}" in
      match v with
      | VUndef | VFun _ | VStart _ _ _ => None
      | VNull => Some "null"
      | VBool b => Some (if b then "true" else "false")
      | VNum x => json_number x
      | VStr s => Some (quoted s)
      | VObj true fs =>
          Some ("[" +:+ comma_separated
                          (map (fun e => default "null"
                                           (json_text d st (snd e)))
                             (elements fs))
                +:+ "]")
      | VObj false fs => Some (members fs)
      | VAnim l =>
          match st !! l with
          | Some fs => Some (members fs)
          | None => None
          end
      end
  end.

Definition json_depth : nat := 16.

Definition sample_json : store -> value -> option string :=
  json_text json_depth.

Definition animation (onFrame : fn) (current toValue : Z) : fields :=
  [(KStr "current", num current); (KStr "toValue", num toValue);
   (KStr "onFrame", VFun onFrame); (KStr "onStart", VFun fn_onStart);
   (KStr "callback", VFun fn_done)].

(** Animation 1 runs from 0 to 100 and stands at 40; animation 2 is its
    replacement, declared from 0 to 1. *)
Definition sample_store : store :=
  {[ 1%nat := animation fn_never 40 100; 2%nat := animation fn_never 0 1 ]}.
Definition sample_world : world := mkWorld sample_store [].

(** A frame timestamp. *)
Definition t16 : value := num 16.

(** A binding whose [opacity] animation (animation 1) is in flight. *)
Definition running_state : AnimatedState :=
  mkState (obj [("opacity", VAnim 1%nat)]) (obj [("opacity", VAnim 1%nat)])
    true false.

(** A binding that has committed a static width. *)
Definition static_state : AnimatedState :=
  mkState (obj [("width", num 50)]) VUndef false false.

(** A binding that has committed [opacity: null]. *)
Definition null_state : AnimatedState :=
  mkState (obj [("opacity", VNull)]) VUndef false false.

(** A binding that has committed nothing yet. *)
Definition fresh_state : AnimatedState :=
  mkState (obj []) VUndef false false.

(** Producer results. *)
Definition produced_width60 : value := obj [("width", num 60)].
Definition produced_scale : value := obj [("scale", VAnim 2%nat)].
Definition produced_opacity : value := obj [("opacity", VAnim 2%nat)].
Definition produced_opacity_width : value :=
  obj [("opacity", VAnim 2%nat); ("width", num 50)].

Definition produced_sequence : value := arr [num 1].

Definition style_before : value :=
  obj [("width", num 50); ("opacity", VAnim 1%nat)].

(** Handlers one of which carries no hash. *)
Definition hashless_handlers : list (string * option WorkletFunction) :=
  [("onStart", Some (mkWorklet (Some 17%N) DUndef));
   ("onEnd", Some (mkWorklet None DUndef))].

(** Colour names, a normalisation that tags its argument, and a style
    with one colour. *)
Definition sample_colors : list key :=
  [KStr "color"; KStr "backgroundColor"].
Definition sample_processColor (v : value) : value :=
  obj [("processed", v)].
Definition style_with_color : value :=
  obj [("width", num 50); ("color", VStr "red")].

(** Animation 3 jumps to 100 on its first frame; its start slot is
    cleared, as after [prepareAnimation]. *)
Definition jump_store : store :=
  {[ 3%nat := animation fn_jump 0 100 ++ [(KStr "callStart", VNull)] ]}.
Definition jump_world : world := mkWorld jump_store [].

(** A binding whose loop was cancelled by a static result and is still
    marked running. *)
Definition cancelled_running_state : AnimatedState :=
  mkState (obj [("width", num 50)]) (arr []) true true.

(** A style that passes a shared value (an object exposing [.value]) as
    [opacity], and one that does so after an empty [transform]. *)
Definition shared_value : value := obj [("value", num 1)].
Definition style_misused : value :=
  obj [("width", num 50); ("opacity", shared_value); ("height", shared_value)].
Definition style_misused_after_sequence : value :=
  obj [("transform", arr []); ("opacity", shared_value)].

End Samples.

(** * Properties *)

(** ** Dependency tracker *)

Section DepsFacts.
Import Deps Reference Samples.

Lemma SFeqb_finite_refl s m e :
  SFeqb (S754_finite s m e) (S754_finite s m e) = true.
Proof.
  unfold SFeqb, SFcompare.
  destruct s; rewrite Z.compare_refl, Pos.compare_cont_refl; reflexivity.
Qed.

Lemma recip_zero s : Num.recip (S754_zero s) = S754_infinity s.
Proof. destruct s; reflexivity. Qed.

(** On numbers the fallback [is] computes SameValue. *)
Lemma is_number (a b : Num.number) :
  is_ (DNum a) (DNum b) = Num.same_value a b.
Proof.
  unfold is_, strict_neq, recip_strict_eq, strict_eq, recip, Num.eq.
  destruct a as [s|s| |s m e], b as [s'|s'| |s' m' e'];
    rewrite ?recip_zero, ?SFeqb_finite_refl;
    try reflexivity;
    try (destruct s, s'; reflexivity);
    try (destruct s; reflexivity);
    try (destruct s'; reflexivity).
  cbn [Num.same_value].
  replace (SFeqb (S754_finite s m e) Num.pzero) with false
    by (destruct s; reflexivity).
  cbn. rewrite orb_false_r, andb_true_r. reflexivity.
Qed.

(** The guard [x !== 0] shields the division: whenever [1 / x] is
    consulted, both operands are numbers. *)
Lemma is_recip_guard (x y : dval) :
  strict_eq x y = true -> strict_neq x (DNum Num.pzero) = false ->
  exists a b, x = DNum a /\ y = DNum b.
Proof.
  destruct x, y; cbn; try discriminate; eauto.
Qed.

Lemma is_Object_is (x y : dval) : is_ x y = Object_is x y.
Proof.
  destruct x, y; try reflexivity; try apply is_number;
    unfold is_, strict_neq; cbn;
    rewrite ?eqb_reflx, ?String.eqb_refl, ?Nat.eqb_refl; cbn;
    rewrite ?orb_false_r, ?andb_true_r, ?andb_false_r; reflexivity.
Qed.

Lemma objectIs_Object_is (flag : bool) (x y : dval) :
  objectIs flag x y = Object_is x y.
Proof. destruct flag; [reflexivity | apply is_Object_is]. Qed.

Lemma hook_inputs_loop_pairwise cmp (next prev : list dval) :
  length prev = length next ->
  hook_inputs_loop cmp next prev = pairwise cmp next prev.
Proof.
  revert next. induction prev as [|p prev IH]; intros [|n next] Hlen;
    try discriminate; [reflexivity|].
  cbn in *. unfold pairwise in *. cbn.
  destruct (cmp n p); cbn; [apply IH; lia | reflexivity].
Qed.

(** C8.  Fingerprint equality: [areDependenciesEqual] is false when
    either list is absent and when the lengths differ; otherwise it is
    the position-wise comparison by [Object.is], for which NaN equals NaN
    and the two zeros differ.  This holds with the builtin [Object.is]
    and with the fallback [is] alike.  In particular
    [equal([1,NaN,-0],[1,NaN,0])] is false and [equal([1,NaN],[1,NaN])]
    is true. *)
Theorem areDependenciesEqual_same_value (has_Object_is : bool) :
  (forall prev, areDependenciesEqual has_Object_is None prev = false) /\
  (forall next, areDependenciesEqual has_Object_is next None = false) /\
  (forall next prev,
      areDependenciesEqual has_Object_is (Some next) (Some prev)
      = (length prev =? length next)%nat && pairwise Object_is next prev) /\
  (forall x y, Object_is (DNum x) (DNum y) = Num.same_value x y) /\
  Num.same_value Num.NaN Num.NaN = true /\
  Num.same_value Num.pzero Num.nzero = false /\
  Num.same_value Num.nzero Num.pzero = false /\
  areDependenciesEqual has_Object_is (Some deps_neg_zero) (Some deps_pos_zero)
  = false /\
  areDependenciesEqual has_Object_is (Some deps_nan) (Some deps_nan) = true.
Proof.
  assert (Hgen : forall next prev,
      areDependenciesEqual has_Object_is (Some next) (Some prev)
      = (length prev =? length next)%nat && pairwise Object_is next prev).
  { intros next prev.
    unfold areDependenciesEqual, areHookInputsEqual.
    destruct (Nat.eqb_spec (length prev) (length next)) as [Hlen|Hlen];
      cbn; [|reflexivity].
    rewrite hook_inputs_loop_pairwise by exact Hlen.
    unfold pairwise.
    induction (combine next prev) as [|[x y] l IH]; cbn;
      [reflexivity | rewrite objectIs_Object_is, IH; reflexivity]. }
  split; [intros prev; reflexivity|].
  split; [intros [next|]; reflexivity|].
  split; [exact Hgen|].
  split; [reflexivity|].
  do 3 (split; [reflexivity|]).
  split; rewrite Hgen; reflexivity.
Qed.

Lemma append_empty (s : string) : s +:+ EmptyString = s.
Proof.
  induction s as [|c s IH]; [reflexivity|].
  change (String c (s +:+ EmptyString) = String c s).
  rewrite IH. reflexivity.
Qed.

Lemma append_append (s t u : string) : (s +:+ t) +:+ u = s +:+ (t +:+ u).
Proof.
  induction s as [|c s IH]; [reflexivity|].
  change (String c ((s +:+ t) +:+ u) = String c (s +:+ (t +:+ u))).
  rewrite IH. reflexivity.
Qed.

Lemma reduce_hashes_ok (Number_toString : N -> string) (acc : string)
    (ws : list WorkletFunction) (hashes : list N) :
  map __workletHash ws = map Some hashes ->
  reduce_hashes Number_toString acc ws
  = Ok (acc +:+ aggregate_hash Number_toString hashes).
Proof.
  revert acc hashes.
  induction ws as [|w ws IH]; intros acc [|h hashes] Heq;
    try discriminate.
  - cbn. rewrite append_empty. reflexivity.
  - cbn in Heq. injection Heq as Hw Hws.
    cbn. unfold hash_toString. rewrite Hw. cbn.
    rewrite (IH _ _ Hws), append_append. reflexivity.
Qed.

(** C10.  With an explicit dependency list, [buildDependencies] returns
    the caller's own array reference and the store differs from the
    initial one only at that array, which has grown by exactly one
    element: the texts that [toString] gives for the hashes of the
    handlers that are not [undefined], one after the other (each handler
    carrying a hash, as the non-null assertion of [buildWorkletsHash]
    says).  This holds whatever text [toString] gives for a number. *)
Theorem buildDependencies_pushes_hash (Number_toString : N -> string)
    (a : addr) (items : list dval)
    (handlers : list (string * option WorkletFunction))
    (hashes : list N) (h : heap) :
  h !! a = Some (CArr items) ->
  map __workletHash (handlersList handlers) = map Some hashes ->
  buildDependencies Number_toString (Some a) handlers h
  = Ok (a, <[a := CArr (items
                        ++ [DStr (aggregate_hash Number_toString hashes)])]> h)
  /\ length (items ++ [DStr (aggregate_hash Number_toString hashes)])
     = S (length items).
Proof.
  intros Ha Hh. split.
  - unfold buildDependencies. rewrite Ha.
    unfold buildWorkletsHash. rewrite (reduce_hashes_ok _ _ _ _ Hh).
    reflexivity.
  - rewrite length_app. cbn. lia.
Qed.

(** The hashes 17 and 4 print as their decimal digits. *)
Lemma buildDependencies_pushes_hash_witness :
  buildDependencies pretty (Some 0%nat) sample_handlers sample_heap
  = Ok (0%nat, <[0%nat := CArr ([DNum Num.one] ++ [DStr "174"])]> sample_heap)
  /\ length ([DNum Num.one] ++ [DStr "174"]) = 2%nat.
Proof.
  assert (E : aggregate_hash pretty [17%N; 4%N] = "174")
    by (vm_compute; reflexivity).
  rewrite <- E.
  apply (buildDependencies_pushes_hash pretty 0%nat [DNum Num.one]
           sample_handlers [17%N; 4%N] sample_heap); reflexivity.
Defined.

(** *** More on the dependency tracker and the optimisation flags *)

Lemma land_pow2 (x i : Z) :
  (0 <= i)%Z ->
  Z.land x (2 ^ i) = if Z.testbit x i then (2 ^ i)%Z else 0%Z.
Proof.
  intros Hi. apply Z.bits_inj'. intros n Hn.
  rewrite Z.land_spec, Z.pow2_bits_eqb by exact Hi.
  destruct (Z.eqb_spec i n) as [->|Hne].
  - destruct (Z.testbit x n); cbn.
    + rewrite Z.pow2_bits_true by exact Hn. reflexivity.
    + rewrite Z.bits_0. reflexivity.
  - rewrite andb_false_r. destruct (Z.testbit x i).
    + rewrite Z.pow2_bits_false by congruence. reflexivity.
    + rewrite Z.bits_0. reflexivity.
Qed.

Lemma to_int32_low_bits (z n : Z) :
  (0 <= n < 32)%Z -> Z.testbit (to_int32 z) n = Z.testbit z n.
Proof.
  intros Hn. unfold to_int32.
  destruct (z mod 2 ^ 32 <? 2 ^ 31)%Z.
  - apply Z.mod_pow2_bits_low. lia.
  - rewrite <- (Z.mod_pow2_bits_low (z mod 2 ^ 32 - 2 ^ 32) 32 n) by lia.
    replace (z mod 2 ^ 32 - 2 ^ 32)%Z with (z mod 2 ^ 32 + (-1) * 2 ^ 32)%Z
      by lia.
    rewrite Z_mod_plus_full, Z.mod_mod by lia.
    apply Z.mod_pow2_bits_low. lia.
Qed.

(** [canApplyOptimalisation] returns 2 when the two lowest bits of
    [__optimalization] are both set and 0 otherwise, whatever the other
    bits are; an absent [__optimalization] gives 0. *)
Theorem canApplyOptimalisation_both_flags (optimalization : option Z) :
  canApplyOptimalisation optimalization
  = if Z.testbit (default 0%Z optimalization) 0
       && Z.testbit (default 0%Z optimalization) 1
    then 2%Z else 0%Z.
Proof.
  unfold canApplyOptimalisation, flag_and.
  set (z := default 0%Z optimalization).
  change (to_int32 FUNCTIONLESS_FLAG) with (2 ^ 0)%Z.
  change (to_int32 STATEMENTLESS_FLAG) with (2 ^ 1)%Z.
  rewrite !land_pow2 by lia.
  rewrite !to_int32_low_bits by lia.
  destruct (Z.testbit z 0), (Z.testbit z 1); reflexivity.
Qed.

Lemma SFeqb_sym (x y : Num.number) : SFeqb x y = SFeqb y x.
Proof.
  unfold SFeqb, SFcompare.
  destruct x as [s|s| |s m e], y as [s'|s'| |s' m' e']; try reflexivity;
    try (destruct s, s'; reflexivity);
    try (destruct s; reflexivity); try (destruct s'; reflexivity).
  assert (Hm : Pos.compare_cont Eq m' m = CompOpp (Pos.compare_cont Eq m m'))
    by (symmetry; apply (Pos.compare_cont_antisym m m' Eq)).
  destruct s, s'; try reflexivity;
    rewrite (Z.compare_antisym e e'), Hm;
    destruct (e ?= e')%Z; cbn [CompOpp]; try reflexivity;
    destruct (Pos.compare_cont Eq m m'); reflexivity.
Qed.

Lemma same_value_refl (x : Num.number) : Num.same_value x x = true.
Proof.
  destruct x as [s|s| |s m e]; cbn.
  - apply eqb_reflx.
  - destruct s; reflexivity.
  - reflexivity.
  - apply SFeqb_finite_refl.
Qed.

Lemma same_value_sym (x y : Num.number) :
  Num.same_value x y = Num.same_value y x.
Proof.
  destruct x as [s|s| |s m e], y as [s'|s'| |s' m' e'];
    cbn [Num.same_value]; try reflexivity; try apply SFeqb_sym.
  destruct s, s'; reflexivity.
Qed.

Lemma Object_is_refl (x : dval) : Object_is x x = true.
Proof.
  destruct x; cbn; try reflexivity.
  - apply eqb_reflx.
  - apply same_value_refl.
  - apply String.eqb_refl.
  - apply Nat.eqb_refl.
Qed.

Lemma Object_is_sym (x y : dval) : Object_is x y = Object_is y x.
Proof.
  destruct x, y; cbn; try reflexivity.
  - destruct b, b0; reflexivity.
  - apply same_value_sym.
  - apply String.eqb_sym.
  - apply Nat.eqb_sym.
Qed.

Lemma areDependenciesEqual_pairwise (flag : bool) (next prev : list dval) :
  areDependenciesEqual flag (Some next) (Some prev)
  = (length prev =? length next)%nat && pairwise Object_is next prev.
Proof.
  unfold areDependenciesEqual, areHookInputsEqual.
  destruct (Nat.eqb_spec (length prev) (length next)) as [Hlen|Hlen];
    cbn; [|reflexivity].
  rewrite hook_inputs_loop_pairwise by exact Hlen.
  unfold pairwise.
  induction (combine next prev) as [|[x y] l IH]; cbn;
    [reflexivity | rewrite objectIs_Object_is, IH; reflexivity].
Qed.

Lemma pairwise_refl (l : list dval) : pairwise Object_is l l = true.
Proof.
  unfold pairwise. induction l as [|x l IH]; cbn; [reflexivity|].
  rewrite Object_is_refl. exact IH.
Qed.

Lemma pairwise_sym (l l' : list dval) :
  pairwise Object_is l l' = pairwise Object_is l' l.
Proof.
  unfold pairwise. revert l'.
  induction l as [|x l IH]; intros [|y l']; cbn; try reflexivity.
  rewrite Object_is_sym, IH. reflexivity.
Qed.

(** Fingerprint equality is reflexive on every list that is present, a
    list holding NaN included, and symmetric in its two arguments. *)
Theorem areDependenciesEqual_refl_sym (has_Object_is : bool) :
  (forall deps, areDependenciesEqual has_Object_is (Some deps) (Some deps)
                = true) /\
  (forall a b, areDependenciesEqual has_Object_is a b
               = areDependenciesEqual has_Object_is b a).
Proof.
  split.
  - intros deps. rewrite areDependenciesEqual_pairwise, Nat.eqb_refl.
    apply pairwise_refl.
  - intros [a|] [b|]; try reflexivity.
    rewrite !areDependenciesEqual_pairwise, Nat.eqb_sym, pairwise_sym.
    reflexivity.
Qed.

(** *** Hashes of handler lists *)

Lemma reduce_hashes_acc (Number_toString : N -> string) (acc : string)
    (ws : list WorkletFunction) :
  reduce_hashes Number_toString acc ws
  = obind (reduce_hashes Number_toString EmptyString ws)
      (fun s => Ok (acc +:+ s)).
Proof.
  revert acc. induction ws as [|w ws IH]; intros acc; cbn.
  - rewrite append_empty. reflexivity.
  - destruct (hash_toString Number_toString w) as [s| |]; cbn; try reflexivity.
    change (EmptyString +:+ s) with s.
    rewrite (IH (acc +:+ s)), (IH s).
    destruct (reduce_hashes Number_toString EmptyString ws) as [t| |]; cbn;
      try reflexivity.
    rewrite append_append. reflexivity.
Qed.

(** The aggregate hash of two handler lists put end to end is the text of
    the first followed by the text of the second, and raises when either
    raises. *)
Theorem buildWorkletsHash_app (Number_toString : N -> string)
    (ws1 ws2 : list WorkletFunction) :
  buildWorkletsHash Number_toString (ws1 ++ ws2)
  = obind (buildWorkletsHash Number_toString ws1) (fun s1 =>
      obind (buildWorkletsHash Number_toString ws2) (fun s2 =>
        Ok (s1 +:+ s2))).
Proof.
  unfold buildWorkletsHash. generalize EmptyString at 1 2.
  induction ws1 as [|w ws1 IH]; intros acc; cbn.
  - apply reduce_hashes_acc.
  - destruct (hash_toString Number_toString w) as [s| |]; cbn;
      [apply IH | reflexivity..].
Qed.

Lemma reduce_hashes_raises (Number_toString : N -> string) (acc : string)
    (ws : list WorkletFunction) :
  reduce_hashes Number_toString acc ws <> Stuck
  /\ raises (reduce_hashes Number_toString acc ws) = existsb hashless ws.
Proof.
  revert acc. induction ws as [|w ws IH]; intros acc; cbn.
  - split; [discriminate | reflexivity].
  - unfold hash_toString, hashless at 1.
    destruct (__workletHash w); cbn; [apply IH|].
    split; [discriminate | reflexivity].
Qed.

(** [buildWorkletsHash] raises exactly when one of the handlers carries no
    hash; with an explicit dependency list [buildDependencies] then raises
    too, before anything is pushed. *)
Theorem buildDependencies_raises_without_hash
    (Number_toString : N -> string) (a : addr) (items : list dval)
    (handlers : list (string * option WorkletFunction))
    (h : heap) :
  h !! a = Some (CArr items) ->
  raises (buildWorkletsHash Number_toString (handlersList handlers))
  = existsb hashless (handlersList handlers)
  /\ raises (buildDependencies Number_toString (Some a) handlers h)
     = existsb hashless (handlersList handlers).
Proof.
  intros Ha. unfold buildDependencies, buildWorkletsHash. rewrite Ha.
  destruct (reduce_hashes_raises Number_toString EmptyString
              (handlersList handlers)) as [_ Hr].
  split; [exact Hr|]. rewrite <- Hr.
  destruct (reduce_hashes Number_toString EmptyString (handlersList handlers));
    reflexivity.
Qed.

Lemma fresh_not_in (h : heap) : h !! fresh h = None.
Proof.
  apply not_elem_of_dom. unfold fresh. apply is_fresh.
Qed.

Lemma alloc_records_spec (ws : list WorkletFunction) :
  forall (h h1 : heap) (rs : list dval),
    alloc_records ws h = (rs, h1) ->
    h ⊆ h1
    /\ Forall2 (fun r w => exists b, r = DRef b /\ h !! b = None
                  /\ h1 !! b = Some (CRec (__workletHash w) (_closure w)))
         rs ws.
Proof.
  induction ws as [|w ws IH]; intros h h1 rs H; cbn in H.
  - injection H as <- <-. split; [reflexivity | constructor].
  - destruct (alloc_records ws
                (<[fresh h := CRec (__workletHash w) (_closure w)]> h))
      as [rs' h2] eqn:Hrec.
    injection H as <- <-.
    destruct (IH _ _ _ Hrec) as [Hsub Hall].
    assert (Hh : h ⊆ <[fresh h := CRec (__workletHash w) (_closure w)]> h)
      by (apply insert_subseteq, fresh_not_in).
    split; [etrans; eassumption|].
    constructor.
    + exists (fresh h). split; [reflexivity|]. split; [apply fresh_not_in|].
      eapply lookup_weaken; [|exact Hsub]. apply lookup_insert_eq.
    + eapply Forall2_impl; [exact Hall|].
      intros r w' (b & -> & Hb & Hb1). exists b.
      split; [reflexivity|]. split; [|exact Hb1].
      destruct (h !! b) eqn:Hhb; [|reflexivity].
      eapply lookup_weaken in Hhb; [|exact Hh].
      unfold heap, addr in *. rewrite Hb in Hhb. discriminate.
Qed.

(** Without an explicit list [buildDependencies] never raises, a handler
    without hash included: it returns a new array, at an address the store
    did not hold, with one new record per handler that is not [undefined],
    in order, each holding that handler's hash and closure; every cell the
    store held is unchanged. *)
Theorem buildDependencies_auto_fresh (Number_toString : N -> string)
    (handlers : list (string * option WorkletFunction)) (h : heap) :
  exists a h' rs,
    buildDependencies Number_toString None handlers h = Ok (a, h')
    /\ h !! a = None /\ h' !! a = Some (CArr rs) /\ h ⊆ h'
    /\ Forall2 (fun r w => exists b, r = DRef b /\ h !! b = None
                  /\ h' !! b = Some (CRec (__workletHash w) (_closure w)))
         rs (handlersList handlers).
Proof.
  unfold buildDependencies.
  destruct (alloc_records (handlersList handlers) h) as [rs h1] eqn:Hrec.
  destruct (alloc_records_spec _ _ _ _ Hrec) as [Hsub Hall].
  exists (fresh h1), (<[fresh h1 := CArr rs]> h1), rs.
  split; [reflexivity|].
  assert (H1 : h1 ⊆ <[fresh h1 := CArr rs]> h1)
    by (apply insert_subseteq, fresh_not_in).
  split.
  { destruct (h !! fresh h1) eqn:Hf; [|reflexivity].
    eapply lookup_weaken in Hf; [|exact Hsub].
    rewrite fresh_not_in in Hf. discriminate. }
  split; [apply lookup_insert_eq|].
  split; [etrans; eassumption|].
  eapply Forall2_impl; [exact Hall|].
  intros r w (b & -> & Hb & Hb1). exists b.
  split; [reflexivity|]. split; [exact Hb|].
  eapply lookup_weaken; eassumption.
Qed.

Lemma buildDependencies_raises_without_hash_witness :
  raises (buildWorkletsHash pretty (handlersList hashless_handlers)) = true
  /\ raises (buildDependencies pretty (Some 0%nat) hashless_handlers
               sample_heap)
     = true.
Proof.
  apply (buildDependencies_raises_without_hash pretty 0%nat [DNum Num.one]
           hashless_handlers sample_heap).
  reflexivity.
Defined.

End DepsFacts.

(** ** Tree walker and style updater *)

Section StyleFacts.
Import Style Reference Samples.

(** *** Suspension ([animationsActive.value] false) *)

Lemma runAnimations_inactive (host : Host) (animation timestamp : value)
    (key : key) (result : fields) (w : world) :
  runAnimations host false animation timestamp key result w
  = Ok (true, result, w).
Proof. destruct animation; reflexivity. Qed.

Lemma frame_loop_inactive (host : Host) (timestamp : value) (a b : bool)
    (fs ls : fields) (allFinished : bool) (w : world) :
  frame_loop host false timestamp (keys_of fs) (VObj a fs) (VObj b ls) []
    allFinished w
  = Ok (VObj a [], VObj b (blanked (keys_of fs) ls), [], allFinished, w).
Proof.
  revert ls. induction fs as [|[k v] fs IH]; intros ls; [reflexivity|].
  cbn [keys_of map fst frame_loop get_prop lookup_field].
  rewrite decide_True by reflexivity.
  cbn [default obind]. rewrite runAnimations_inactive.
  cbn [obind set_prop delete_prop delete_field lookup_field default].
  rewrite decide_True by reflexivity.
  apply IH.
Qed.

(** C2, as the code has it.  With the active flag false, [runAnimations]
    returns [true] for every tree and timestamp and leaves the store (so
    every animation object: [current], [finished], [timestamp],
    [callStart]), the trace (no callback is invoked) and [result] as they
    were.  The continuation [frame] therefore takes every entry of
    [state.animations] for finished: it empties [state.animations] and
    stores [undefined] under each of its names in [state.last], commits an
    empty update and stops the loop. *)
Theorem suspended_step_keeps_terminals_frame_drops_entries (host : Host)
    (timestamp : value) :
  (forall animation key result w,
      runAnimations host false animation timestamp key result w
      = Ok (true, result, w)) /\
  (forall a b fs ls running w,
      frame host false timestamp (mkState (VObj b ls) (VObj a fs) running false) w
      = Ok (mkState (VObj b (blanked (keys_of fs) ls)) (VObj a []) false false,
            emit (EUpdateProps (VObj false [])) w)).
Proof.
  split.
  - intros. apply runAnimations_inactive.
  - intros. unfold frame. cbn [isAnimationCancelled animations last keys_in obind].
    rewrite frame_loop_inactive. reflexivity.
Qed.

(** C2, counterexample.  A suspended frame on a binding whose [opacity]
    animation is in flight discards the entry of [state.animations] and
    overwrites [last.opacity] with [undefined]. *)
Lemma suspended_frame_discards_entry :
  frame sample_host false t16 running_state sample_world
  = Ok (mkState (obj [("opacity", VUndef)]) (obj []) false false,
        mkWorld sample_store [EUpdateProps (obj [])]).
Proof. vm_compute. reflexivity. Qed.

(** *** Evaluations at the inputs where the code departs from the
    specification *)

(** C3.  [styleUpdater] on a producer result without animated entries
    leaves [state.last] as it was ([width: 50]) while the merge with the
    new result is [width: 60]; [jestStyleUpdater] stores the merge. *)
Theorem styleUpdater_static_branch_keeps_last :
  styleUpdater sample_host true produced_width60 VUndef t16 static_state
    sample_world
  = Ok (mkState (obj [("width", num 50)]) (arr []) false true,
        mkWorld sample_store [EUpdateProps produced_width60])
  /\ Object_assign2 sample_store (last static_state) produced_width60
     = Ok (obj [("width", num 60)])
  /\ (exists state' w',
        jestStyleUpdater sample_host sample_json true produced_width60 VUndef t16
          static_state sample_world = Ok (state', w')
        /\ last state' = obj [("width", num 60)]).
Proof.
  split; [vm_compute; reflexivity|].
  split; [vm_compute; reflexivity|].
  eexists _, _. split; vm_compute; reflexivity.
Qed.

(** C4.  [opacity] is in [state.animations] and absent from the new
    result, which animates [scale]: after [styleUpdater] the entry
    [opacity] is still there; after [jestStyleUpdater] it is gone. *)
Theorem styleUpdater_keeps_absent_key :
  (exists state' w',
      styleUpdater sample_host true produced_scale VUndef t16 running_state
        sample_world = Ok (state', w')
      /\ animations state'
         = obj [("opacity", VAnim 1%nat); ("scale", VAnim 2%nat)])
  /\ (exists state' w',
        jestStyleUpdater sample_host sample_json true produced_scale VUndef t16
          running_state sample_world = Ok (state', w')
        /\ animations state' = obj [("scale", VAnim 2%nat)]).
Proof.
  split; eexists _, _; split; vm_compute; reflexivity.
Qed.

(** C7.  A [null] in either tree makes the walkers raise: [prepareAnimation]
    on an animation whose previous value is [null] (through [styleUpdater]
    as well, when [last.opacity] is [null]), [prepareAnimation] and
    [runAnimations] on a sequence with a [null] entry. *)
Theorem walkers_raise_on_null :
  raises (prepareAnimation sample_host t16 (VAnim 2%nat) VUndef VNull
            sample_world) = true
  /\ raises (styleUpdater sample_host true produced_opacity VUndef t16
               null_state sample_world) = true
  /\ raises (prepareAnimation sample_host t16 (arr [VNull]) VUndef VUndef
               sample_world) = true
  /\ raises (runAnimations sample_host true (arr [VNull]) t16
               (KStr "transform") [] sample_world) = true.
Proof. repeat split; vm_compute; reflexivity. Qed.

(** *** Shape validation *)

(** C6, as the code has it.  [validateAnimatedStyles] raises exactly on
    the results that are neither a plain property map nor [null]: [null]
    passes, since its [typeof] is ['object'].  In [useAnimatedStyle] the
    check guards the creation of the binding's state only: once
    [initRef.current] is set, no result is validated, and the updater that
    runs on every re-run commits a number as it is. *)
Theorem validate_raises_on_first_render_only :
  (forall v, raises (validateAnimatedStyles v)
             = negb (plain_property_map v || is_null v)) /\
  (forall v, raises (initRemoteState None v)
             = raises (validateAnimatedStyles v)) /\
  (forall state v, initRemoteState (Some state) v = Ok state) /\
  (forall host active x frameTimestamp now state w,
      styleUpdater host active (VNum x) frameTimestamp now state w
      = Ok (mkState (last state) (arr []) (isAnimationRunning state) true,
            emit (EUpdateProps (VNum x)) w)).
Proof.
  split; [intros [| | | | | | |[|]|]; reflexivity|].
  split; [|split; [reflexivity|]].
  - intros v. unfold initRemoteState.
    destruct (validateAnimatedStyles v) as [[]| |]; reflexivity.
  - intros. unfold styleUpdater, classify_new_values.
    cbn [nullish_or keys_in obind classify_loop]. reflexivity.
Qed.

(** C6, counterexample.  [null] is not a property map and passes the
    check; a sequence produced on a re-run, with the binding's state in
    place, raises nothing and is committed. *)
Lemma validate_accepts_null_and_skips_reruns :
  validateAnimatedStyles VNull = Ok tt
  /\ plain_property_map VNull = false
  /\ isArray produced_sequence = true
  /\ initRemoteState (Some static_state) produced_sequence = Ok static_state
  /\ styleUpdater sample_host true produced_sequence VUndef t16 static_state
       sample_world
     = Ok (mkState (obj [("width", num 50)]) (arr []) false true,
           mkWorld sample_store [EUpdateProps produced_sequence]).
Proof. repeat split; vm_compute; reflexivity. Qed.

(** *** Own properties: reading after writing *)

Lemma lookup_replace_field_eq (k : key) (v : value) (fs : fields) :
  has_field k fs = true -> lookup_field k (replace_field k v fs) = Some v.
Proof.
  unfold has_field. induction fs as [|[k' v'] fs IH]; cbn; [discriminate|].
  repeat case_decide; cbn; repeat case_decide; subst; try congruence.
  exact IH.
Qed.

Lemma lookup_replace_field_ne (k k' : key) (v : value) (fs : fields) :
  k <> k' -> lookup_field k (replace_field k' v fs) = lookup_field k fs.
Proof.
  intros Hne. induction fs as [|[k0 v0] fs IH]; cbn; [reflexivity|].
  repeat case_decide; cbn; repeat case_decide; subst; congruence.
Qed.

Lemma lookup_insert_index_eq (i : nat) (v : value) (fs : fields) :
  lookup_field (KIdx i) fs = None ->
  lookup_field (KIdx i) (insert_index i v fs) = Some v.
Proof.
  induction fs as [|[[j|s] v'] fs IH]; cbn [lookup_field insert_index].
  - case_decide; congruence.
  - destruct (j <? i)%nat; cbn [lookup_field];
      repeat case_decide; subst; try congruence.
    exact IH.
  - repeat case_decide; congruence.
Qed.

Lemma lookup_insert_index_ne (k : key) (i : nat) (v : value) (fs : fields) :
  k <> KIdx i ->
  lookup_field k (insert_index i v fs) = lookup_field k fs.
Proof.
  intros Hne. induction fs as [|[[j|s] v'] fs IH];
    cbn [lookup_field insert_index].
  - case_decide; congruence.
  - destruct (j <? i)%nat; cbn [lookup_field];
      repeat case_decide; subst; congruence.
  - repeat case_decide; subst; congruence.
Qed.

Lemma lookup_field_app (k : key) (fs gs : fields) :
  lookup_field k (fs ++ gs)
  = match lookup_field k fs with
    | Some v => Some v
    | None => lookup_field k gs
    end.
Proof.
  induction fs as [|[k' v'] fs IH]; cbn; [reflexivity|].
  destruct (decide (k' = k)); [reflexivity | apply IH].
Qed.

Lemma lookup_set_field_eq (k : key) (v : value) (fs : fields) :
  lookup_field k (set_field k v fs) = Some v.
Proof.
  unfold set_field. destruct (has_field k fs) eqn:Hhas.
  - apply lookup_replace_field_eq, Hhas.
  - unfold has_field in Hhas.
    destruct (lookup_field k fs) eqn:Hl; [discriminate|].
    destruct k as [i|s].
    + apply lookup_insert_index_eq, Hl.
    + rewrite lookup_field_app, Hl. cbn. case_decide; congruence.
Qed.

Lemma lookup_set_field_ne (k k' : key) (v : value) (fs : fields) :
  k <> k' -> lookup_field k (set_field k' v fs) = lookup_field k fs.
Proof.
  intros Hne. unfold set_field. destruct (has_field k' fs).
  - apply lookup_replace_field_ne, Hne.
  - destruct k' as [i|s].
    + apply lookup_insert_index_ne, Hne.
    + rewrite lookup_field_app. destruct (lookup_field k fs); [reflexivity|].
      cbn. case_decide; congruence.
Qed.

(** *** Seed resolution *)

Lemma is_undefined_false (v : value) : v <> VUndef -> is_undefined v = false.
Proof. destruct v; intros H; try reflexivity. congruence. Qed.

(** The code follows the seed rule of section 4.1. *)
Lemma seed_rule_seed_value (st : store) (current la lv s : value) :
  seed_rule st current la lv s -> seed_value st current la lv = Ok s.
Proof.
  intros H. unfold seed_value.
  destruct H as [x Ho Hv Hx | f c Ho Hv Hf Hfn Hc Hcn
                 | f c Ho Hv Hf Hfn Hla Hc Hcn | Hn Ho | ->
                 | f Ho Hv Hf Hfn Hla Hc | Ho Hv Hf].
  - rewrite Ho, Hv. cbn. rewrite (is_undefined_false _ Hx).
    destruct lv; try discriminate; reflexivity.
  - rewrite Ho, Hv, Hf. cbn. rewrite (is_undefined_false _ Hfn), Hc. cbn.
    rewrite (is_undefined_false _ Hcn).
    destruct lv; try discriminate; reflexivity.
  - rewrite Ho, Hv, Hf. cbn. rewrite (is_undefined_false _ Hfn), Hla. cbn.
    rewrite Hc. cbn. rewrite (is_undefined_false _ Hcn).
    destruct lv; try discriminate; reflexivity.
  - rewrite Ho, (is_undefined_false _ Hn). reflexivity.
  - reflexivity.
  - rewrite Ho, Hv, Hf. cbn. rewrite (is_undefined_false _ Hfn), Hla. cbn.
    rewrite Hc. cbn. destruct lv; try discriminate; reflexivity.
  - rewrite Ho, Hv, Hf. cbn. destruct lv; try discriminate; reflexivity.
Qed.

(** C5, as the code has it.  Preparing an animation object calls its
    [onStart] exactly once, with the seed that the rule of section 4.1
    selects from the previous value first: a holder's [.value]; for a
    previous value that is itself an animation, the in-flight [current] of
    the previous animation node, else that animation's own [current]; a
    plain previous value as it is; the node's declared [current] when there
    is no previous value, whatever the previous animation node holds.  The
    start slot [callStart] is cleared afterwards.  ([onStart] is assumed
    to leave the animation object in the store.) *)
Theorem prepareAnimation_seeds_onStart (host : Host) (now : value) (l : loc)
    (fs : fields) (g : fn) (la lv s : value) (w : world) :
  w_store w !! l = Some fs ->
  truthy (default VUndef (lookup_field k_onFrame fs)) = true ->
  lookup_field k_onStart fs = Some (VFun g) ->
  seed_rule (w_store w) (default VUndef (lookup_field k_current fs)) la lv s ->
  is_Some (onStart_body host g l s now la
             (<[l := set_field k_callStart (VStart l s la) fs]> (w_store w))
           !! l) ->
  exists w',
    prepareAnimation host now (VAnim l) la lv w = Ok w'
    /\ w_trace w' = w_trace w ++ [EOnStart g l s now la]
    /\ get_prop (w_store w') (VAnim l) k_callStart = Ok VNull.
Proof.
  intros Hl Hframe Hstart Hseed [fs' Hfs'].
  apply seed_rule_seed_value in Hseed.
  set (st1 := onStart_body host g l s now la
                (<[l := set_field k_callStart (VStart l s la) fs]> (w_store w))).
  assert (E : prepareAnimation host now (VAnim l) la lv w
              = Ok {| w_store := <[l := set_field k_callStart VNull fs']> st1;
                      w_trace := w_trace w ++ [EOnStart g l s now la] |}).
  { cbn [prepareAnimation].
    repeat first
      [ rewrite Hl | rewrite Hframe | rewrite Hseed | rewrite Hstart
      | rewrite Hfs' | rewrite lookup_insert_eq | rewrite lookup_set_field_eq
      | rewrite lookup_set_field_ne by discriminate
      | progress fold st1
      | progress cbn [obind get_prop default from_option id w_store w_trace
                      call_callStart]
      | progress unfold prepare_terminal, set_anim, call_onStart ].
    reflexivity. }
  eexists. split; [exact E|]. split; [reflexivity|].
  cbn [w_store get_prop]. rewrite lookup_insert_eq, lookup_set_field_eq.
  reflexivity.
Qed.

(** Interruption continuity: animation 1 runs from 0 to 100 and stands at
    40; its replacement, prepared against it, is seeded with 40. *)
Lemma prepareAnimation_seeds_onStart_witness :
  exists w',
    prepareAnimation sample_host t16 (VAnim 2%nat) (VAnim 1%nat) (VAnim 1%nat)
      sample_world = Ok w'
    /\ w_trace w'
       = w_trace sample_world
         ++ [EOnStart fn_onStart 2%nat (num 40) t16 (VAnim 1%nat)]
    /\ get_prop (w_store w') (VAnim 2%nat) k_callStart = Ok VNull.
Proof.
  apply (prepareAnimation_seeds_onStart sample_host t16 2%nat
           (animation fn_never 0 1) fn_onStart (VAnim 1%nat) (VAnim 1%nat)
           (num 40) sample_world).
  - reflexivity.
  - reflexivity.
  - reflexivity.
  - apply (seed_in_flight _ _ _ _ (VFun fn_never) (num 40));
      try reflexivity; discriminate.
  - vm_compute. eexists. reflexivity.
Defined.

(** C5, counterexample.  The previous animation node stands at 40, but no
    previous value is recorded: the replacement is seeded with its own
    declared 0.  With a plain previous value 7 it is seeded with 7. *)
Lemma prepareAnimation_ignores_in_flight_current :
  get_prop sample_store (VAnim 1%nat) k_current = Ok (num 40)
  /\ (exists w',
        prepareAnimation sample_host t16 (VAnim 2%nat) (VAnim 1%nat) VUndef
          sample_world = Ok w'
        /\ w_trace w' = [EOnStart fn_onStart 2%nat (num 0) t16 (VAnim 1%nat)])
  /\ (exists w',
        prepareAnimation sample_host t16 (VAnim 2%nat) (VAnim 1%nat) (num 7)
          sample_world = Ok w'
        /\ w_trace w' = [EOnStart fn_onStart 2%nat (num 7) t16 (VAnim 1%nat)]).
Proof.
  split; [vm_compute; reflexivity|].
  split; eexists; split; vm_compute; reflexivity.
Qed.

(** *** Style differ *)

Lemma lookup_field_In (k : key) (v : value) (fs : fields) :
  lookup_field k fs = Some v -> In (k, v) fs.
Proof.
  induction fs as [|[k' v'] fs IH]; cbn; [discriminate|].
  case_decide; subst.
  - intros [= ->]. left. reflexivity.
  - intros Hl. right. apply IH, Hl.
Qed.

Lemma lookup_field_key (k : key) (fs : fields) :
  In k (keys_of fs) -> exists v, lookup_field k fs = Some v.
Proof.
  induction fs as [|[k' v'] fs IH]; cbn; [intros []|].
  intros [->|Hin]; case_decide; subst; try congruence; eauto.
Qed.








(** *** Traces of the walkers *)

(** Induction on trees, with the property available for every value of an
    object. *)
Lemma value_fields_ind (P : value -> Prop) :
  P VUndef -> P VNull -> (forall b, P (VBool b)) -> (forall x, P (VNum x)) ->
  (forall s, P (VStr s)) -> (forall f, P (VFun f)) ->
  (forall l seed la, P (VStart l seed la)) ->
  (forall a fs, Forall (fun kv => P (snd kv)) fs -> P (VObj a fs)) ->
  (forall l, P (VAnim l)) ->
  forall v, P v.
Proof.
  intros HU HN HB HNum HS HF HSt HO HA.
  fix IH 1. intros [| |b|x|s|f|l seed la|a fs|l].
  - exact HU.
  - exact HN.
  - apply HB.
  - apply HNum.
  - apply HS.
  - apply HF.
  - apply HSt.
  - apply HO.
    induction fs as [|[k v] fs IHfs]; constructor; [apply IH | exact IHfs].
  - apply HA.
Qed.

Lemma callbacks_only_refl (w : world) : callbacks_only w w.
Proof. exists []. rewrite app_nil_r. split; [reflexivity | constructor]. Qed.

Lemma callbacks_only_trans (w1 w2 w3 : world) :
  callbacks_only w1 w2 -> callbacks_only w2 w3 -> callbacks_only w1 w3.
Proof.
  intros (e1 & H1 & F1) (e2 & H2 & F2). exists (e1 ++ e2).
  rewrite H2, H1, app_assoc. split; [reflexivity | apply Forall_app; auto].
Qed.

Lemma callbacks_only_emit (e : event) (w : world) :
  is_callback e = true -> callbacks_only w (emit e w).
Proof.
  intros He. exists [e]. split; [reflexivity | repeat constructor; exact He].
Qed.

Lemma set_anim_trace (l : nat) (k : key) (v : value) (w w' : world) :
  set_anim l k v w = Ok w' -> callbacks_only w w'.
Proof.
  unfold set_anim. destruct (w_store w !! l); [|discriminate].
  intros [= <-]. exists []. cbn. rewrite app_nil_r.
  split; [reflexivity | constructor].
Qed.

Lemma call_onStart_trace (host : Host) (l : nat) (seed ts la : value)
    (w w' : world) :
  call_onStart host l seed ts la w = Ok w' -> callbacks_only w w'.
Proof.
  unfold call_onStart.
  destruct (get_prop (w_store w) (VAnim l) k_onStart) as [f| |];
    cbn [obind]; try discriminate.
  destruct f; try discriminate.
  intros [= <-]. eexists. split; [reflexivity | repeat constructor].
Qed.

Lemma call_callStart_trace (host : Host) (c ts : value) (w w' : world) :
  call_callStart host c ts w = Ok w' -> callbacks_only w w'.
Proof.
  destruct c; cbn; try discriminate. apply call_onStart_trace.
Qed.

(** Inversion of a sequencing step that succeeds. *)
Lemma obind_Ok {A B} (m : outcome A) (k : A -> outcome B) (b : B) :
  obind m k = Ok b -> exists a, m = Ok a /\ k a = Ok b.
Proof. destruct m; cbn; try discriminate. eauto. Qed.

Tactic Notation "inv_bind" hyp(H) :=
  let a := fresh "a" in
  let Ha := fresh "Ha" in
  apply obind_Ok in H; destruct H as (a & Ha & H).

Tactic Notation "inv_bind" hyp(H) "as" simple_intropattern(a) ident(Ha) :=
  apply obind_Ok in H; destruct H as (a & Ha & H).

Lemma prepare_terminal_trace (host : Host) (now : value) (l : nat)
    (la lv : value) (w w' : world) :
  prepare_terminal host now l la lv w = Ok w' -> callbacks_only w w'.
Proof.
  unfold prepare_terminal. intros H.
  inv_bind H. inv_bind H. inv_bind H. inv_bind H. inv_bind H.
  eapply callbacks_only_trans; [eapply set_anim_trace; eassumption|].
  eapply callbacks_only_trans; [eapply call_callStart_trace; eassumption|].
  eapply set_anim_trace; eassumption.
Qed.

Lemma prepare_inline_trace (fs : fields) (la lv : value) (w w' : world) :
  prepare_inline fs la lv w = Ok w' -> callbacks_only w w'.
Proof.
  unfold prepare_inline. intros H. inv_bind H.
  destruct (is_function _); discriminate.
Qed.

Lemma prepare_each_trace
    (rec : value -> value -> value -> world -> outcome world)
    (la lv : value) (only : bool) (ps : fields) :
  Forall (fun kv => forall la lv w w',
              rec (snd kv) la lv w = Ok w' -> callbacks_only w w') ps ->
  forall w w', prepare_each rec la lv only ps w = Ok w' -> callbacks_only w w'.
Proof.
  induction 1 as [|[k prop] ps Hrec _ IH]; intros w w' H; cbn in H.
  - injection H as <-. apply callbacks_only_refl.
  - destruct (only && negb (is_index k)); [apply IH, H|].
    inv_bind H. inv_bind H. inv_bind H.
    eapply callbacks_only_trans; [eapply Hrec; eassumption | apply IH, H].
Qed.

Lemma prepareAnimation_trace (host : Host) (now animatedProp : value) :
  forall la lv w w',
    prepareAnimation host now animatedProp la lv w = Ok w' ->
    callbacks_only w w'.
Proof.
  induction animatedProp as [| | | | | | |a fs IH|l] using value_fields_ind;
    intros la lv w w' H; cbn [prepareAnimation] in H;
    try (injection H as <-; apply callbacks_only_refl);
    try discriminate.
  - inv_bind H as w1 Hw1.
    assert (Hw : callbacks_only w w1).
    { destruct a; [eapply prepare_each_trace; eassumption|].
      injection Hw1 as <-. apply callbacks_only_refl. }
    eapply callbacks_only_trans; [exact Hw|].
    destruct (truthy _).
    + eapply prepare_inline_trace; eassumption.
    + eapply prepare_each_trace; eassumption.
  - inv_bind H as f Hf. destruct (truthy f); [|discriminate].
    eapply prepare_terminal_trace; eassumption.
Qed.

Lemma call_onFrame_trace (host : Host) (l : nat) (ts : value) (w w' : world)
    (b : bool) :
  call_onFrame host l ts w = Ok (b, w') -> callbacks_only w w'.
Proof.
  unfold call_onFrame. intros H. inv_bind H as f Hf.
  destruct f as [| | | | |f| | |]; try discriminate.
  destruct (onFrame_body host f l ts (w_store w)) as [fin st'].
  injection H as _ <-. eexists. split; [reflexivity | repeat constructor].
Qed.

Lemma call_callback_trace (l : nat) (w w' : world) :
  call_callback l w = Ok w' -> callbacks_only w w'.
Proof.
  unfold call_callback. intros H. inv_bind H as cb Hcb.
  destruct (truthy cb).
  - destruct cb; try discriminate. injection H as <-.
    apply callbacks_only_emit. reflexivity.
  - injection H as <-. apply callbacks_only_refl.
Qed.

Lemma run_terminal_trace (host : Host) (l : nat) (ts : value) (key : key)
    (result : fields) (w w' : world) (b : bool) (r : fields) :
  run_terminal host l ts key result w = Ok (b, r, w') -> callbacks_only w w'.
Proof.
  unfold run_terminal. intros H.
  inv_bind H as fin Hfin. inv_bind H as [finished wm] Hp.
  inv_bind H as cur Hcur. injection H as _ _ <-.
  destruct (negb (truthy fin)).
  - inv_bind Hp as cs Hcs. inv_bind Hp as w1 Hw1.
    inv_bind Hp as [f2 w2] Hq. inv_bind Hp as w3 Hw3.
    assert (H1 : callbacks_only w w1).
    { destruct (truthy cs).
      - inv_bind Hw1 as w0 Hw0.
        eapply callbacks_only_trans;
          [eapply call_callStart_trace | eapply set_anim_trace]; eassumption.
      - injection Hw1 as <-. apply callbacks_only_refl. }
    eapply callbacks_only_trans; [exact H1|].
    eapply callbacks_only_trans; [eapply call_onFrame_trace; eassumption|].
    eapply callbacks_only_trans; [eapply set_anim_trace; eassumption|].
    destruct f2.
    + inv_bind Hp as w4 Hw4. inv_bind Hp as w5 Hw5. injection Hp as _ <-.
      eapply callbacks_only_trans;
        [eapply set_anim_trace | eapply call_callback_trace]; eassumption.
    + injection Hp as _ <-. apply callbacks_only_refl.
  - injection Hp as _ <-. apply callbacks_only_refl.
Qed.

Lemma run_inline_trace (fs : fields) (key : key) (result : fields)
    (w w' : world) (b : bool) (r : fields) :
  run_inline fs key result w = Ok (b, r, w') -> callbacks_only w w'.
Proof.
  unfold run_inline.
  destruct (negb (truthy _)).
  - destruct (truthy _); destruct (is_function _); discriminate.
  - intros [= _ _ <-]. apply callbacks_only_refl.
Qed.

Lemma run_each_trace
    (rec : value -> value -> key -> fields -> world
           -> outcome (bool * fields * world))
    (ts : value) (only : bool) (ps : fields) :
  Forall (fun kv => forall ts key result w b r w',
              rec (snd kv) ts key result w = Ok (b, r, w') ->
              callbacks_only w w') ps ->
  forall allFinished sub w b r w',
    run_each rec ts only ps allFinished sub w = Ok (b, r, w') ->
    callbacks_only w w'.
Proof.
  induction 1 as [|[k entry] ps Hrec _ IH]; intros allFinished sub w b r w' H;
    cbn in H.
  - injection H as _ _ <-. apply callbacks_only_refl.
  - destruct (only && negb (is_index k)); [eapply IH, H|].
    inv_bind H as [[fin sub1] w1] Hstep.
    eapply callbacks_only_trans; [eapply Hrec; eassumption | eapply IH, H].
Qed.

Lemma runAnimations_trace (host : Host) (active : bool) (animation : value) :
  forall ts key result w b r w',
    runAnimations host active animation ts key result w = Ok (b, r, w') ->
    callbacks_only w w'.
Proof.
  destruct active;
    [|intros ts key result w bf rf wf H; rewrite runAnimations_inactive in H;
      injection H as _ _ <-; apply callbacks_only_refl].
  induction animation as [| | | | | | |a fs IH|l] using value_fields_ind;
    intros ts key result w bf rf wf H; cbn [runAnimations negb] in H;
    try (injection H as _ _ <-; apply callbacks_only_refl);
    try discriminate.
  - destruct a.
    + inv_bind H as [[fin sub] w1] Hloop. injection H as _ _ <-.
      eapply run_each_trace; eassumption.
    + destruct (truthy _); [eapply run_inline_trace; eassumption|].
      inv_bind H as [[fin sub] w1] Hloop. injection H as _ _ <-.
      eapply run_each_trace; eassumption.
  - inv_bind H as f Hf. destruct (truthy f); [|discriminate].
    eapply run_terminal_trace; eassumption.
Qed.

(** *** The commits of [styleUpdater] *)

Lemma frame_loop_trace (host : Host) (active : bool) (ts : value)
    (ks : list key) :
  forall an ls updates allFinished w an' ls' updates' allFinished' w',
    frame_loop host active ts ks an ls updates allFinished w
    = Ok (an', ls', updates', allFinished', w') ->
    callbacks_only w w'.
Proof.
  induction ks as [|k ks IH];
    intros an ls updates allFinished w an' ls' updates' allFinished' w' H;
    cbn [frame_loop] in H.
  - injection H as _ _ _ _ <-. apply callbacks_only_refl.
  - inv_bind H as a Ha. inv_bind H as [[finished updates1] w1] Hrun.
    eapply callbacks_only_trans;
      [eapply runAnimations_trace; eassumption|].
    destruct finished.
    + inv_bind H as last1 Hl. inv_bind H as an1 Han. eapply IH, H.
    + eapply IH, H.
Qed.

(** A continuation that is not cancelled calls animation callbacks, then
    commits its updates once, then possibly requests another frame. *)
Lemma frame_trace (host : Host) (active : bool) (ts : value)
    (state state' : AnimatedState) (w w' : world) :
  isAnimationCancelled state = false ->
  frame host active ts state w = Ok (state', w') ->
  exists wf updates,
    callbacks_only w wf
    /\ (w_trace w' = w_trace wf ++ [EUpdateProps updates]
        \/ w_trace w' = w_trace wf ++ [EUpdateProps updates; ERequestFrame]).
Proof.
  intros Hc H. unfold frame in H. rewrite Hc in H.
  inv_bind H as ks Hks.
  inv_bind H as [[[[an1 last1] updates] allFinished] w1] Hloop.
  exists w1, (VObj false updates).
  split; [eapply frame_loop_trace; eassumption|].
  destruct allFinished; cbn [negb] in H; injection H as _ <-.
  - left. reflexivity.
  - right. cbn. rewrite <- app_assoc. reflexivity.
Qed.

Lemma classify_loop_trace (host : Host) (now newValues oldValues : value)
    (ks : list key) :
  forall an has w an' has' w',
    classify_loop host now newValues oldValues ks an has w = Ok (an', has', w') ->
    callbacks_only w w'.
Proof.
  induction ks as [|k ks IH]; intros an has w an' has' w' H;
    cbn [classify_loop] in H.
  - injection H as _ _ <-. apply callbacks_only_refl.
  - inv_bind H as v Hv. inv_bind H as a Ha. destruct a.
    + inv_bind H as la Hla. inv_bind H as lv Hlv. inv_bind H as w1 Hw1.
      inv_bind H as an1 Han.
      eapply callbacks_only_trans;
        [eapply prepareAnimation_trace; eassumption | eapply IH, H].
    + inv_bind H as an1 Han. eapply IH, H.
Qed.

(** C1, as the code has it.  When the classification of the producer
    result reports animated entries, a call of [styleUpdater] that returns
    ends with exactly one commit of its own, a static subset, as its last
    effect.  Before it come the calls of [onStart] made while classifying
    and then: nothing, if a loop is already running; a frame request, if
    none is running and no frame timestamp is at hand; and with a frame
    timestamp at hand the first continuation itself, run on the spot, with
    its callbacks, its own commit of the animated values and possibly a
    frame request. *)
Theorem styleUpdater_static_commit_is_last (host : Host) (active : bool)
    (produced frameTimestamp now : value) (state state' : AnimatedState)
    (w w1 w' : world) (animations1 : value) :
  classify_new_values host produced now state w = Ok (animations1, true, w1) ->
  styleUpdater host active produced frameTimestamp now state w
  = Ok (state', w') ->
  exists w2 style,
    w_trace w' = w_trace w2 ++ [EUpdateProps style]
    /\ callbacks_only w w1
    /\ (if isAnimationRunning state then w2 = w1
        else if truthy frameTimestamp then
          exists wf updates,
            callbacks_only w1 wf
            /\ (w_trace w2 = w_trace wf ++ [EUpdateProps updates]
                \/ w_trace w2
                   = w_trace wf ++ [EUpdateProps updates; ERequestFrame])
        else w_trace w2 = w_trace w1 ++ [ERequestFrame]).
Proof.
  intros Hclass H. unfold styleUpdater in H. rewrite Hclass in H.
  cbn [obind] in H.
  inv_bind H as [state2 w2] Hsched. inv_bind H as merged Hm.
  inv_bind H as style Hs. injection H as _ <-.
  exists w2, style. split; [reflexivity|]. split.
  - unfold classify_new_values in Hclass. inv_bind Hclass as ks Hks.
    eapply classify_loop_trace; eassumption.
  - cbn [isAnimationRunning last animations] in Hsched.
    destruct (isAnimationRunning state); cbn [negb] in Hsched.
    + injection Hsched as _ <-. reflexivity.
    + destruct (truthy frameTimestamp).
      * eapply frame_trace; [|eassumption]. reflexivity.
      * injection Hsched as _ <-. reflexivity.
Qed.

Lemma styleUpdater_static_commit_is_last_witness :
  exists animations1 w1 state' w',
    classify_new_values sample_host produced_opacity_width t16 fresh_state
      sample_world = Ok (animations1, true, w1)
    /\ styleUpdater sample_host true produced_opacity_width VUndef t16
         fresh_state sample_world = Ok (state', w')
    /\ exists w2 style,
         w_trace w' = w_trace w2 ++ [EUpdateProps style]
         /\ callbacks_only sample_world w1
         /\ w_trace w2 = w_trace w1 ++ [ERequestFrame].
Proof.
  eexists _, _, _, _.
  split; [vm_compute; reflexivity|].
  split; [vm_compute; reflexivity|].
  eapply (styleUpdater_static_commit_is_last sample_host true
            produced_opacity_width VUndef t16 fresh_state);
    vm_compute; reflexivity.
Defined.

(** C1, counterexample.  No loop is running and a frame timestamp is at
    hand: the first continuation runs ([onFrame] is called and the animated
    [opacity] committed) before the static commit, which is the second
    commit of the call. *)
Lemma styleUpdater_frame_runs_before_static_commit :
  exists state' w',
    styleUpdater sample_host true produced_opacity_width t16 t16 fresh_state
      sample_world = Ok (state', w')
    /\ w_trace w'
       = [EOnStart fn_onStart 2%nat (num 0) t16 VUndef;
          EOnFrame fn_never 2%nat t16;
          EUpdateProps (obj [("opacity", num 0)]);
          ERequestFrame;
          EUpdateProps (obj [])].
Proof. eexists _, _. split; vm_compute; reflexivity. Qed.

(** *** The sibling updater on the names that are no longer animated *)

Lemma lookup_delete_field_none (k k' : key) (fs : fields) :
  lookup_field k fs = None -> lookup_field k (delete_field k' fs) = None.
Proof.
  induction fs as [|[k0 v0] fs IH]; cbn [lookup_field delete_field];
    [reflexivity|].
  repeat case_decide; subst; cbn [lookup_field]; repeat case_decide;
    try congruence; auto.
Qed.

Lemma lookup_field_not_key (k : key) (fs : fields) :
  ~ In k (keys_of fs) -> lookup_field k fs = None.
Proof.
  intros Hn. destruct (lookup_field k fs) as [v|] eqn:Hl; [|reflexivity].
  exfalso. apply Hn. apply lookup_field_In in Hl.
  apply (in_map fst) in Hl. exact Hl.
Qed.

Lemma lookup_delete_field_eq (k : key) (fs : fields) :
  NoDup (keys_of fs) -> lookup_field k (delete_field k fs) = None.
Proof.
  induction fs as [|[k0 v0] fs IH]; cbn [lookup_field delete_field keys_of map fst];
    [reflexivity|].
  intros Hnd. apply NoDup_cons in Hnd as [Hnotin Hnd].
  case_decide; subst.
  - apply lookup_field_not_key. intros Hin. apply Hnotin.
    apply list_elem_of_In. exact Hin.
  - cbn [lookup_field]. case_decide; [congruence | apply IH, Hnd].
Qed.

Lemma keys_of_delete_field (k k' : key) (fs : fields) :
  In k (keys_of (delete_field k' fs)) -> In k (keys_of fs).
Proof.
  induction fs as [|[k0 v0] fs IH]; cbn [delete_field keys_of map fst];
    [intros []|].
  case_decide; subst; cbn; intuition.
Qed.

Lemma NoDup_delete_field (k : key) (fs : fields) :
  NoDup (keys_of fs) -> NoDup (keys_of (delete_field k fs)).
Proof.
  induction fs as [|[k0 v0] fs IH]; cbn [delete_field keys_of map fst];
    [intros _; constructor|].
  intros Hnd. apply NoDup_cons in Hnd as [Hnotin Hnd].
  case_decide; [exact Hnd|].
  cbn. apply NoDup_cons. split; [|apply IH, Hnd].
  intros Hin. apply Hnotin. apply list_elem_of_In.
  apply list_elem_of_In in Hin. eapply keys_of_delete_field, Hin.
Qed.

(** Pruning only deletes. *)
Lemma prune_loop_keeps_none (st : gmap nat (list (key * value)))
    (new : value) (k : key) (ks : list key) :
  forall a fs an',
    lookup_field k fs = None ->
    prune_loop st new ks (VObj a fs) = Ok an' ->
    exists fs', an' = VObj a fs' /\ lookup_field k fs' = None.
Proof.
  induction ks as [|k0 ks IH]; intros a fs an' Hnone H; cbn [prune_loop] in H.
  - injection H as <-. eauto.
  - inv_bind H as v Hv. inv_bind H as b Hb. destruct b; cbn [negb] in H.
    + eapply IH; eassumption.
    + cbn [delete_prop obind] in H.
      eapply IH; [|eassumption]. apply lookup_delete_field_none, Hnone.
Qed.

Lemma prune_loop_deletes (st : gmap nat (list (key * value))) (new : value)
    (k : key) (v : value) (ks : list key) :
  get_prop st new k = Ok v -> isAnimated st v = Ok false -> In k ks ->
  forall a fs an',
    NoDup (keys_of fs) ->
    prune_loop st new ks (VObj a fs) = Ok an' ->
    exists fs', an' = VObj a fs' /\ lookup_field k fs' = None.
Proof.
  intros Hget Hstatic.
  induction ks as [|k0 ks IH]; intros Hin a fs an' Hnd H; [destruct Hin|].
  cbn [prune_loop] in H.
  inv_bind H as v0 Hv0. inv_bind H as b Hb.
  destruct (decide (k0 = k)) as [->|Hne].
  - rewrite Hget in Hv0. injection Hv0 as <-.
    rewrite Hstatic in Hb. injection Hb as <-.
    cbn [negb delete_prop obind] in H.
    eapply prune_loop_keeps_none; [|eassumption].
    apply lookup_delete_field_eq, Hnd.
  - destruct Hin as [Heq|Hin]; [congruence|].
    destruct b; cbn [negb] in H.
    + eapply IH; eassumption.
    + cbn [delete_prop obind] in H.
      eapply IH; [exact Hin | | eassumption]. apply NoDup_delete_field, Hnd.
Qed.

(** Extraction only stores names whose value is animated. *)
Lemma extract_loop_keeps_none (host : Host) (now : value) (a0 : bool)
    (new : list (key * value)) (old : value) (k : key) (ks : list key) :
  (forall st', isAnimated st' (default VUndef (lookup_field k new)) = Ok false) ->
  forall an has w an' has' w',
    (exists a fs, an = VObj a fs /\ lookup_field k fs = None) ->
    extract_loop host now (VObj a0 new) old ks an has w = Ok (an', has', w') ->
    exists a fs', an' = VObj a fs' /\ lookup_field k fs' = None.
Proof.
  intros Hstatic.
  induction ks as [|k0 ks IH]; intros an has w an' has' w' Han H;
    cbn [extract_loop] in H.
  - injection H as <- _ _. exact Han.
  - cbn [get_prop obind] in H. inv_bind H as b Hb. destruct b.
    + inv_bind H as la Hla. inv_bind H as lv Hlv. inv_bind H as w1 Hw1.
      inv_bind H as an1 Han1.
      eapply IH; [|eassumption].
      destruct Han as (a & fs & -> & Hnone).
      cbn [set_prop] in Han1. injection Han1 as <-.
      exists a, (set_field k0 (default VUndef (lookup_field k0 new)) fs).
      split; [reflexivity|].
      rewrite lookup_set_field_ne; [exact Hnone|].
      intros ->. rewrite Hstatic in Hb. discriminate.
    + eapply IH; eassumption.
Qed.

(** A continuation only deletes from [animations]. *)
Lemma frame_loop_keeps_none (host : Host) (active : bool) (ts : value)
    (k : key) (ks : list key) :
  forall an ls updates allFinished w an' ls' updates' allFinished' w',
    (exists a fs, an = VObj a fs /\ lookup_field k fs = None) ->
    frame_loop host active ts ks an ls updates allFinished w
    = Ok (an', ls', updates', allFinished', w') ->
    exists a fs', an' = VObj a fs' /\ lookup_field k fs' = None.
Proof.
  induction ks as [|k0 ks IH];
    intros an ls updates allFinished w an' ls' updates' allFinished' w' Han H;
    cbn [frame_loop] in H.
  - injection H as <- _ _ _ _. exact Han.
  - inv_bind H as v Hv. inv_bind H as [[finished updates1] w1] Hrun.
    destruct finished.
    + inv_bind H as last1 Hl. inv_bind H as an1 Han1.
      eapply IH; [|eassumption].
      destruct Han as (a & fs & -> & Hnone).
      cbn [delete_prop] in Han1. injection Han1 as <-.
      eexists _, _. split; [reflexivity|].
      apply lookup_delete_field_none, Hnone.
    + eapply IH; eassumption.
Qed.

(** [jestStyleUpdater] does what C4 asks of both updaters: a name of
    [state.animations] whose value in the new result is not animated
    (absent names included: their value is [undefined]) is not a name of
    [state.animations] after the call. *)
Lemma jestStyleUpdater_deletes_unanimated (host : Host)
    (JSON_stringify : gmap nat (list (key * value)) -> value -> option string)
    (active : bool) (a0 a : bool) (new fs : list (key * value))
    (frameTimestamp now : value) (state state' : AnimatedState)
    (w w' : world) (k : key) :
  animations state = VObj a fs -> NoDup (keys_of fs) -> In k (keys_of fs) ->
  (forall st', isAnimated st' (default VUndef (lookup_field k new)) = Ok false) ->
  jestStyleUpdater host JSON_stringify active (VObj a0 new) frameTimestamp now
    state w = Ok (state', w') ->
  exists a' fs', animations state' = VObj a' fs'
                 /\ lookup_field k fs' = None.
Proof.
  intros Han Hnd Hin Hstatic H. unfold jestStyleUpdater in H.
  rewrite Han in H. cbn [nullish_or Object_keys keys_in obind] in H.
  inv_bind H as an1 Hprune.
  inv_bind H as [[an2 has] w1] Hextract.
  inv_bind H as [state2 w2] Hsched.
  inv_bind H as diff Hdiff. inv_bind H as merged Hm. inv_bind H as dks Hd.
  injection H as <- _. cbn [animations].
  destruct (prune_loop_deletes (w_store w) (VObj a0 new) k
              (default VUndef (lookup_field k new)) (keys_of fs)
              eq_refl (Hstatic _) Hin a fs an1 Hnd Hprune)
    as (fs1 & -> & Hnone1).
  assert (Hex : exists a2 fs2, an2 = VObj a2 fs2 /\ lookup_field k fs2 = None).
  { eapply extract_loop_keeps_none; [exact Hstatic | | exact Hextract]. eauto. }
  destruct has.
  - cbn [isAnimationRunning last animations isAnimationCancelled] in Hsched.
    destruct (negb (isAnimationRunning state)).
    + destruct (truthy frameTimestamp).
      * unfold jest_frame in Hsched.
        cbn [isAnimationCancelled animations last isAnimationRunning] in Hsched.
        inv_bind Hsched as ks Hks.
        inv_bind Hsched as [[[[an3 l3] u3] f3] w3] Hloop.
        assert (Hfl : exists a3 fs3, an3 = VObj a3 fs3
                                     /\ lookup_field k fs3 = None).
        { eapply frame_loop_keeps_none; [exact Hex | exact Hloop]. }
        destruct (negb f3); injection Hsched as <- _; exact Hfl.
      * injection Hsched as <- _. exact Hex.
    + injection Hsched as <- _. exact Hex.
  - injection Hsched as <- _. cbn [animations]. exists true, []. eauto.
Qed.

(** Where no continuation runs during the call, the animated branch of
    [styleUpdater] stores in [state.last] the merge of the previous [last]
    with the new result; the branch without animated entries does not
    (see C3). *)
Lemma styleUpdater_animated_branch_merges (host : Host) (active : bool)
    (produced frameTimestamp now : value) (state state' : AnimatedState)
    (w w1 w' : world) (animations1 : value) :
  classify_new_values host produced now state w = Ok (animations1, true, w1) ->
  isAnimationRunning state = true \/ truthy frameTimestamp = false ->
  styleUpdater host active produced frameTimestamp now state w
  = Ok (state', w') ->
  Object_assign2 (w_store w1) (last state) (nullish_or produced (VObj false []))
  = Ok (last state').
Proof.
  intros Hclass Hno H. unfold styleUpdater in H. rewrite Hclass in H.
  cbn [obind] in H.
  inv_bind H as [state2 w2] Hsched. inv_bind H as merged Hm.
  inv_bind H as style Hs. injection H as <- _. cbn [last].
  cbn [isAnimationRunning last animations] in Hsched.
  assert (Heq : last state2 = last state /\ w_store w2 = w_store w1).
  { destruct (isAnimationRunning state); cbn [negb] in Hsched.
    - injection Hsched as <- <-. split; reflexivity.
    - destruct Hno as [Hno|Hno]; [discriminate|]. rewrite Hno in Hsched.
      injection Hsched as <- <-. split; reflexivity. }
  destruct Heq as [<- <-]. exact Hm.
Qed.

(** *** The static subset and the merge *)

Lemma without_animations_loop_lookup (st : gmap nat (list (key * value)))
    (a : bool) (fs : list (key * value)) (ks : list key) :
  forall diff res,
    without_animations_loop st (VObj a fs) ks diff = Ok res ->
    forall k,
      lookup_field k res
      = if bool_decide (k ∈ ks)
           && is_static st (default VUndef (lookup_field k fs))
        then Some (default VUndef (lookup_field k fs))
        else lookup_field k diff.
Proof.
  induction ks as [|k0 ks IH]; intros diff res H k;
    cbn [without_animations_loop get_prop obind] in H.
  - injection H as <-. reflexivity.
  - inv_bind H as b Hb.
    assert (Hin : bool_decide (k ∈ k0 :: ks)
                  = bool_decide (k0 = k) || bool_decide (k ∈ ks)).
    { apply eq_true_iff_eq.
      rewrite orb_true_iff, !bool_decide_eq_true, elem_of_cons.
      intuition congruence. }
    rewrite Hin. destruct b.
    + rewrite (IH _ _ H k).
      destruct (bool_decide_reflect (k0 = k)) as [->|Hne]; [|reflexivity].
      unfold is_static. rewrite Hb, !andb_false_r. reflexivity.
    + rewrite (IH _ _ H k).
      destruct (bool_decide_reflect (k0 = k)) as [->|Hne]; cbn [orb].
      * unfold is_static. rewrite Hb, lookup_set_field_eq.
        destruct (bool_decide (k ∈ ks)); reflexivity.
      * rewrite lookup_set_field_ne by congruence. reflexivity.
Qed.

(** The static subset holds exactly the entries of the style whose value
    is not animated, each with its value; in particular no value of the
    subset is animated. *)
Theorem getStyleWithoutAnimations_static_entries
    (st : gmap nat (list (key * value))) (a : bool)
    (fs : list (key * value)) (r : value) :
  getStyleWithoutAnimations st (VObj a fs) = Ok r ->
  exists res,
    r = VObj false res
    /\ forall k v, lookup_field k res = Some v
                   <-> lookup_field k fs = Some v /\ isAnimated st v = Ok false.
Proof.
  unfold getStyleWithoutAnimations. cbn [keys_in obind]. intros H.
  inv_bind H as res Hres. injection H as <-.
  exists res. split; [reflexivity|]. intros k v.
  rewrite (without_animations_loop_lookup _ _ _ _ _ _ Hres k).
  cbn [lookup_field]. unfold is_static.
  destruct (lookup_field k fs) as [v0|] eqn:Hl; cbn [default from_option id].
  - assert (Hin : In k (keys_of fs))
      by (apply lookup_field_In in Hl; apply (in_map fst) in Hl; exact Hl).
    rewrite bool_decide_eq_true_2 by (apply list_elem_of_In; exact Hin).
    cbn [andb].
    destruct (isAnimated st v0) as [[|]| |] eqn:Han.
    + split; [discriminate | intros [[= <-] Hs]; congruence].
    + split; [intros [= <-]; split; [reflexivity | exact Han]
             | intros [Hs _]; exact Hs].
    + split; [discriminate | intros [[= <-] Hs]; congruence].
    + split; [discriminate | intros [[= <-] Hs]; congruence].
  - destruct (bool_decide_reflect (k ∈ keys_of fs)) as [Hin|Hin].
    + apply list_elem_of_In, lookup_field_key in Hin as [v0 Hv0]. congruence.
    + cbn [andb]. split; [discriminate | intros [? _]; discriminate].
Qed.

Lemma assign_fields_lookup (src : list (key * value)) :
  NoDup (keys_of src) ->
  forall target k,
    lookup_field k (assign_fields target src)
    = match lookup_field k src with
      | Some v => Some v
      | None => lookup_field k target
      end.
Proof.
  unfold assign_fields.
  induction src as [|[k0 v0] src IH]; intros Hnd target k; [reflexivity|].
  cbn [keys_of map fst] in Hnd. apply NoDup_cons in Hnd as [Hnotin Hnd].
  cbn [fold_left fst snd lookup_field]. rewrite (IH Hnd).
  case_decide; subst.
  - rewrite lookup_field_not_key, lookup_set_field_eq; [reflexivity|].
    intros Hin. apply Hnotin, list_elem_of_In, Hin.
  - rewrite lookup_set_field_ne by congruence. reflexivity.
Qed.

(** [Object.assign({}, old, new)] on two objects: under every name the
    merge holds the value of [new] when [new] has the name, and the value
    of [old] otherwise. *)
Lemma Object_assign2_new_wins (st : gmap nat (list (key * value)))
    (a b : bool) (old new : list (key * value)) :
  NoDup (keys_of old) -> NoDup (keys_of new) ->
  exists merged,
    Object_assign2 st (VObj a old) (VObj b new) = Ok (VObj false merged)
    /\ forall k, lookup_field k merged
                 = match lookup_field k new with
                   | Some v => Some v
                   | None => lookup_field k old
                   end.
Proof.
  intros Hold Hnew. eexists. split; [reflexivity|]. intros k.
  rewrite (assign_fields_lookup _ Hnew), (assign_fields_lookup _ Hold).
  destruct (lookup_field k new), (lookup_field k old); reflexivity.
Qed.
(** *** What [styleDiff] marks and what it leaves out *)

Lemma removed_loop_lookup (st : gmap nat (list (key * value))) (b : bool)
    (new : list (key * value)) (ks : list key) :
  forall diff res,
    removed_loop st (VObj b new) ks diff = Ok res ->
    forall k,
      lookup_field k res
      = if bool_decide (k ∈ ks)
           && is_undefined (default VUndef (lookup_field k new))
        then Some VNull else lookup_field k diff.
Proof.
  induction ks as [|k0 ks IH]; intros diff res H k;
    cbn [removed_loop get_prop obind] in H.
  - injection H as <-. reflexivity.
  - assert (Hin : bool_decide (k ∈ k0 :: ks)
                  = bool_decide (k0 = k) || bool_decide (k ∈ ks)).
    { apply eq_true_iff_eq.
      rewrite orb_true_iff, !bool_decide_eq_true, elem_of_cons.
      intuition congruence. }
    rewrite Hin.
    destruct (is_undefined (default VUndef (lookup_field k0 new))) eqn:Hu;
      rewrite (IH _ _ H k);
      destruct (bool_decide_reflect (k0 = k)) as [->|Hne]; cbn [orb];
      rewrite ?Hu, ?andb_false_r, ?andb_true_r;
      rewrite ?lookup_set_field_eq, ?lookup_set_field_ne by congruence;
      try reflexivity.
    destruct (bool_decide (k ∈ ks)); reflexivity.
Qed.

Lemma changed_loop_untouched
    (json : gmap nat (list (key * value)) -> value -> option string)
    (st : gmap nat (list (key * value))) (a b : bool)
    (old new : list (key * value)) (k : key) (ks : list key) :
  k ∉ ks \/ isAnimated st (default VUndef (lookup_field k new)) = Ok true ->
  forall diff res,
    changed_loop json st (VObj a old) (VObj b new) ks diff = Ok res ->
    lookup_field k res = lookup_field k diff.
Proof.
  induction ks as [|k0 ks IH]; intros Hk diff res H;
    cbn [changed_loop get_prop obind] in H.
  - injection H as <-. reflexivity.
  - inv_bind H as an Han.
    assert (Hk' : k ∉ ks
                  \/ isAnimated st (default VUndef (lookup_field k new))
                     = Ok true).
    { destruct Hk as [Hk|Hk]; [left | right; exact Hk].
      intros Hin. apply Hk. apply elem_of_cons. right. exact Hin. }
    destruct an; [apply (IH Hk' _ _ H)|].
    destruct (strict_neq _ _ && json_neq json st _ _);
      [|apply (IH Hk' _ _ H)].
    rewrite (IH Hk' _ _ H). apply lookup_set_field_ne.
    intros ->. destruct Hk as [Hk|Hk].
    + apply Hk. apply elem_of_cons. left. reflexivity.
    + congruence.
Qed.

(** In the diff of two objects a name of the old style that the new style
    lacks carries the removal marker [null], and a name whose new value is
    animated does not occur, whatever the old value was. *)
Theorem styleDiff_marks_removed_skips_animated
    (JSON_stringify : gmap nat (list (key * value)) -> value -> option string)
    (st : gmap nat (list (key * value))) (a b : bool)
    (old new : list (key * value)) (r : value) :
  styleDiff JSON_stringify st (VObj a old) (VObj b new) = Ok r ->
  exists d,
    r = VObj false d
    /\ (forall k, In k (keys_of old) -> lookup_field k new = None ->
                  lookup_field k d = Some VNull)
    /\ (forall k v, lookup_field k new = Some v ->
                    isAnimated st v = Ok true -> lookup_field k d = None).
Proof.
  unfold styleDiff. cbn [Object_keys keys_in obind]. intros H.
  inv_bind H as d1 Hd1. inv_bind H as d2 Hd2. injection H as <-.
  exists d2. split; [reflexivity|]. split.
  - intros k Hin Hnone.
    assert (Hk : k ∉ keys_of new
                 \/ isAnimated st (default VUndef (lookup_field k new))
                    = Ok true).
    { left. intros Hk.
      apply list_elem_of_In, lookup_field_key in Hk as [v Hv]. congruence. }
    rewrite (changed_loop_untouched JSON_stringify st a b old new k
               (keys_of new) Hk d1 d2 Hd2).
    rewrite (removed_loop_lookup _ _ _ _ _ _ Hd1 k), Hnone.
    rewrite bool_decide_eq_true_2 by (apply list_elem_of_In; exact Hin).
    reflexivity.
  - intros k v Hv Han.
    assert (Hk : k ∉ keys_of new
                 \/ isAnimated st (default VUndef (lookup_field k new))
                    = Ok true)
      by (right; rewrite Hv; exact Han).
    rewrite (changed_loop_untouched JSON_stringify st a b old new k
               (keys_of new) Hk d1 d2 Hd2).
    rewrite (removed_loop_lookup _ _ _ _ _ _ Hd1 k), Hv.
    cbn [default from_option id].
    destruct v; try (rewrite andb_false_r; reflexivity).
    cbn in Han. discriminate.
Qed.
(** *** Colour normalisation *)

Lemma keys_of_recolored (cp : list key) (pc : value -> value)
    (fs : list (key * value)) :
  keys_of (recolored cp pc fs) = keys_of fs.
Proof.
  unfold recolored, keys_of. rewrite map_map. apply map_ext.
  intros [k v]. cbn. destruct (is_color_prop cp k); reflexivity.
Qed.

Lemma replace_field_app_fresh (k : key) (v v0 : value)
    (pre rest : list (key * value)) :
  lookup_field k pre = None ->
  replace_field k v (pre ++ (k, v0) :: rest) = pre ++ (k, v) :: rest.
Proof.
  induction pre as [|[k' v'] pre IH]; cbn [app replace_field lookup_field].
  - intros _. rewrite decide_True; reflexivity.
  - case_decide; [discriminate|]. intros Hn. rewrite (IH Hn). reflexivity.
Qed.

Lemma parseColors_loop_recolors (cp : list key) (pc : value -> value)
    (st : gmap nat (list (key * value))) (a : bool)
    (rest : list (key * value)) :
  forall pre,
    NoDup (keys_of (pre ++ rest)) ->
    parseColors_loop cp pc st (keys_of rest)
      (VObj a (recolored cp pc pre ++ rest))
    = Ok (VObj a (recolored cp pc (pre ++ rest))).
Proof.
  induction rest as [|[k v] rest IH]; intros pre Hnd.
  - rewrite !app_nil_r. reflexivity.
  - assert (Hpre : lookup_field k (recolored cp pc pre) = None).
    { apply lookup_field_not_key. rewrite keys_of_recolored.
      unfold keys_of in Hnd. rewrite map_app in Hnd.
      apply NoDup_app in Hnd as (_ & Hdis & _).
      intros Hin. apply (Hdis k); [apply list_elem_of_In, Hin|].
      cbn. apply elem_of_cons. left. reflexivity. }
    assert (Hnext : recolored cp pc (pre ++ [(k, v)]) ++ rest
                    = recolored cp pc pre
                      ++ (if is_color_prop cp k then (k, pc v) else (k, v))
                         :: rest).
    { unfold recolored. rewrite map_app, <- app_assoc. reflexivity. }
    specialize (IH (pre ++ [(k, v)])).
    rewrite <- app_assoc in IH. cbn [app] in IH. specialize (IH Hnd).
    rewrite Hnext in IH.
    cbn [keys_of map fst parseColors_loop].
    destruct (is_color_prop cp k) eqn:Hc; [|exact IH].
    cbn [get_prop obind]. rewrite lookup_field_app, Hpre.
    cbn [lookup_field]. rewrite decide_True by reflexivity.
    cbn [default from_option id set_prop obind]. unfold set_field, has_field.
    rewrite lookup_field_app, Hpre. cbn [lookup_field].
    rewrite decide_True by reflexivity.
    rewrite replace_field_app_fresh by exact Hpre. exact IH.
Qed.

(** [parseColors] normalises the value of every colour-valued name of an
    object and leaves every other entry, the set of names and their order
    as they were. *)
Theorem parseColors_recolors (colorProps : list key)
    (processColor : value -> value) (st : gmap nat (list (key * value)))
    (a : bool) (fs : list (key * value)) :
  NoDup (keys_of fs) ->
  parseColors colorProps processColor st (VObj a fs)
  = Ok (VObj a (recolored colorProps processColor fs)).
Proof.
  intros Hnd. unfold parseColors. cbn [keys_in obind].
  apply (parseColors_loop_recolors colorProps processColor st a fs []).
  exact Hnd.
Qed.

Lemma parseColors_recolors_witness :
  parseColors sample_colors sample_processColor sample_store style_with_color
  = Ok (obj [("width", num 50);
             ("color", sample_processColor (VStr "red"))]).
Proof.
  apply (parseColors_recolors sample_colors sample_processColor sample_store
           false).
  apply (bool_decide_unpack _). vm_compute. reflexivity.
Defined.

Lemma parseColors_loop_no_color (cp : list key) (pc : value -> value)
    (st : gmap nat (list (key * value))) (ks : list key) (updates : value) :
  existsb (is_color_prop cp) ks = false ->
  parseColors_loop cp pc st ks updates = Ok updates.
Proof.
  induction ks as [|k ks IH]; cbn [existsb parseColors_loop];
    [reflexivity|].
  intros H. apply orb_false_iff in H as [Hk Hks]. rewrite Hk. apply IH, Hks.
Qed.

(** When [hasColorProps] answers [false], [parseColors] changes nothing:
    the test is a sound guard for skipping the normalisation. *)
Theorem parseColors_noop_without_color_props (colorProps : list key)
    (processColor : value -> value) (st : gmap nat (list (key * value)))
    (updates : value) :
  hasColorProps colorProps st updates = Ok false ->
  parseColors colorProps processColor st updates = Ok updates.
Proof.
  unfold hasColorProps, parseColors. intros H.
  inv_bind H as ks Hks. injection H as H. rewrite Hks. cbn [obind].
  apply parseColors_loop_no_color, H.
Qed.

Lemma parseColors_noop_without_color_props_witness :
  parseColors sample_colors sample_processColor sample_store style_before
  = Ok style_before.
Proof.
  apply (parseColors_noop_without_color_props sample_colors
           sample_processColor sample_store style_before).
  vm_compute. reflexivity.
Defined.

Lemma getStyleWithoutAnimations_static_entries_witness :
  exists res,
    obj [("width", num 50)] = VObj false res
    /\ forall k v,
         lookup_field k res = Some v
         <-> lookup_field k [(KStr "width", num 50); (KStr "opacity", VAnim 1%nat)]
             = Some v
             /\ isAnimated sample_store v = Ok false.
Proof.
  apply (getStyleWithoutAnimations_static_entries sample_store false
           [(KStr "width", num 50); (KStr "opacity", VAnim 1%nat)]).
  vm_compute. reflexivity.
Defined.

Lemma Object_assign2_new_wins_witness :
  exists merged,
    Object_assign2 sample_store style_before produced_width60
    = Ok (VObj false merged)
    /\ forall k,
         lookup_field k merged
         = match lookup_field k [(KStr "width", num 60)] with
           | Some v => Some v
           | None =>
               lookup_field k
                 [(KStr "width", num 50); (KStr "opacity", VAnim 1%nat)]
           end.
Proof.
  apply (Object_assign2_new_wins sample_store false false
           [(KStr "width", num 50); (KStr "opacity", VAnim 1%nat)]
           [(KStr "width", num 60)]);
    apply (bool_decide_unpack _); vm_compute; reflexivity.
Defined.

Lemma styleDiff_marks_removed_skips_animated_witness :
  exists d,
    obj [("width", VNull)] = VObj false d
    /\ (forall k,
          In k (keys_of [(KStr "width", num 50); (KStr "opacity", VAnim 1%nat)]) ->
          lookup_field k [(KStr "opacity", VAnim 2%nat)] = None ->
          lookup_field k d = Some VNull)
    /\ (forall k v,
          lookup_field k [(KStr "opacity", VAnim 2%nat)] = Some v ->
          isAnimated sample_store v = Ok true -> lookup_field k d = None).
Proof.
  apply (styleDiff_marks_removed_skips_animated sample_json sample_store false
           false [(KStr "width", num 50); (KStr "opacity", VAnim 1%nat)]
           [(KStr "opacity", VAnim 2%nat)]).
  vm_compute. reflexivity.
Defined.

(** *** Steps of a single animation *)

(** An animation that is already finished is not stepped again: no
    callback is called, the store is left as it is, and its [current] is
    written to the result. *)
Lemma runAnimations_finished_short_circuit (host : Host) (l : nat)
    (fs : list (key * value)) (timestamp : value) (key : key)
    (result : list (Style.key * value)) (w : world) :
  w_store w !! l = Some fs ->
  truthy (default VUndef (lookup_field k_onFrame fs)) = true ->
  truthy (default VUndef (lookup_field k_finished fs)) = true ->
  runAnimations host true (VAnim l) timestamp key result w
  = Ok (true,
        set_field key (default VUndef (lookup_field k_current fs)) result, w).
Proof.
  intros Hl Hframe Hfin.
  cbn [runAnimations negb get_prop]. rewrite Hl. cbn [obind]. rewrite Hframe.
  unfold run_terminal. cbn [get_prop]. rewrite Hl. cbn [obind].
  rewrite Hfin. cbn [negb obind]. rewrite Hl. reflexivity.
Qed.

(** When [onFrame] reports completion, the step records the timestamp,
    marks the animation finished and calls its callback once; every later
    step of that animation is the short circuit: it calls nothing and
    leaves the world as it is.  ([onFrame] is assumed to leave the
    animation object, with its [onFrame] and [callback], in the store.) *)
Theorem runAnimations_completes_once (host : Host) (l : nat)
    (fs fs' : list (key * value)) (g c : nat) (st' : gmap nat (list (key * value)))
    (timestamp : value) (key : key) (result : list (Style.key * value))
    (w : world) :
  w_store w !! l = Some fs ->
  lookup_field k_onFrame fs = Some (VFun g) ->
  truthy (default VUndef (lookup_field k_finished fs)) = false ->
  truthy (default VUndef (lookup_field k_callStart fs)) = false ->
  onFrame_body host g l timestamp (w_store w) = (true, st') ->
  st' !! l = Some fs' ->
  truthy (default VUndef (lookup_field k_onFrame fs')) = true ->
  lookup_field k_callback fs' = Some (VFun c) ->
  exists r1 w1,
    runAnimations host true (VAnim l) timestamp key result w
    = Ok (true, r1, w1)
    /\ w_trace w1 = w_trace w ++ [EOnFrame g l timestamp; ECallback c true]
    /\ get_prop (w_store w1) (VAnim l) k_timestamp = Ok timestamp
    /\ forall timestamp' key' result',
         exists r2,
           runAnimations host true (VAnim l) timestamp' key' result' w1
           = Ok (true, r2, w1).
Proof.
  intros Hl Hframe Hfin Hcs Hbody Hl' Hframe' Hcb.
  set (fs1 := set_field k_timestamp timestamp fs').
  set (fs2 := set_field k_finished (VBool true) fs1).
  set (w1 := {| w_store := <[l := fs2]> (<[l := fs1]> st');
                w_trace := (w_trace w ++ [EOnFrame g l timestamp])
                           ++ [ECallback c true] |}).
  assert (Hcb2 : lookup_field k_callback fs2 = Some (VFun c)).
  { unfold fs2, fs1. rewrite !lookup_set_field_ne by discriminate. exact Hcb. }
  assert (E : runAnimations host true (VAnim l) timestamp key result w
              = Ok (true,
                    set_field key (default VUndef (lookup_field k_current fs2))
                      result, w1)).
  { cbn [runAnimations negb].
    repeat first
      [ rewrite Hl | rewrite Hl' | rewrite Hframe | rewrite Hfin
      | rewrite Hcs | rewrite Hbody | rewrite Hcb2 | rewrite lookup_insert_eq
      | progress fold fs1 | progress fold fs2
      | progress cbn [obind get_prop default from_option id w_store w_trace
                      truthy negb emit]
      | progress unfold run_terminal, set_anim, call_onFrame, call_callback ].
    reflexivity. }
  exists (set_field key (default VUndef (lookup_field k_current fs2)) result),
         w1.
  split; [exact E|]. split; [unfold w1; cbn; rewrite <- app_assoc; reflexivity|].
  split.
  { unfold w1. cbn [w_store get_prop]. rewrite lookup_insert_eq.
    unfold fs2, fs1.
    rewrite lookup_set_field_ne by discriminate.
    rewrite lookup_set_field_eq. reflexivity. }
  intros timestamp' key' result'. eexists.
  apply (runAnimations_finished_short_circuit host l fs2).
  - unfold w1. cbn [w_store]. apply lookup_insert_eq.
  - unfold fs2, fs1. rewrite !lookup_set_field_ne by discriminate.
    exact Hframe'.
  - unfold fs2. rewrite lookup_set_field_eq. reflexivity.
Qed.

Lemma runAnimations_completes_once_witness :
  exists r1 w1,
    runAnimations sample_host true (VAnim 3%nat) t16 (KStr "opacity") []
      jump_world = Ok (true, r1, w1)
    /\ w_trace w1
       = w_trace jump_world ++ [EOnFrame fn_jump 3%nat t16; ECallback fn_done true]
    /\ get_prop (w_store w1) (VAnim 3%nat) k_timestamp = Ok t16
    /\ forall timestamp' key' result',
         exists r2,
           runAnimations sample_host true (VAnim 3%nat) timestamp' key' result'
             w1 = Ok (true, r2, w1).
Proof.
  eapply (runAnimations_completes_once sample_host 3%nat);
    vm_compute; reflexivity.
Defined.
(** *** The shape of the result tree *)

Lemma runAnimations_writes_key (host : Host) (animation timestamp : value)
    (key : key) (result : list (Style.key * value)) (w : world)
    (fin : bool) (r : list (Style.key * value)) (w' : world) :
  runAnimations host true animation timestamp key result w = Ok (fin, r, w') ->
  exists x, r = set_field key x result.
Proof.
  destruct animation as [| | | | | | |a fs|l]; cbn [runAnimations negb];
    intros H; try discriminate; try (injection H as _ <- _; eauto).
  - destruct a.
    + inv_bind H as [[af sub] w1] Hloop. injection H as _ <- _. eauto.
    + destruct (truthy _).
      * unfold run_inline in H.
        destruct (negb (truthy _)).
        -- destruct (truthy _); destruct (is_function _); discriminate.
        -- injection H as _ <- _. eauto.
      * inv_bind H as [[af sub] w1] Hloop. injection H as _ <- _. eauto.
  - inv_bind H as f Hf. destruct (truthy f); [|discriminate].
    unfold run_terminal in H. inv_bind H as fn Hfn.
    inv_bind H as [finished wm] Hp. inv_bind H as cur Hcur.
    injection H as _ <- _. eauto.
Qed.

Lemma run_each_names
    (rec : value -> value -> key -> list (key * value) -> world
           -> outcome (bool * list (key * value) * world))
    (ts : value) (only : bool) (ps : list (key * value)) :
  (forall entry ts key result w fin r w',
      rec entry ts key result w = Ok (fin, r, w') ->
      exists x, r = set_field key x result) ->
  forall allFinished sub w b sub' w',
    run_each rec ts only ps allFinished sub w = Ok (b, sub', w') ->
    forall k,
      is_Some (lookup_field k sub')
      <-> is_Some (lookup_field k sub)
          \/ (In k (keys_of ps) /\ (only = true -> is_index k = true)).
Proof.
  intros Hrec.
  induction ps as [|[k0 entry] ps IH]; intros allFinished sub w b sub' w' H k;
    cbn [run_each] in H.
  - injection H as _ <- _. cbn. tauto.
  - cbn [keys_of map fst In].
    destruct (only && negb (is_index k0)) eqn:Hskip.
    + rewrite (IH _ _ _ _ _ _ H k).
      apply andb_true_iff in Hskip as [-> Hni].
      apply negb_true_iff in Hni.
      split; [tauto|]. intros [?|[[->|?] Hi]]; auto.
      specialize (Hi eq_refl). congruence.
    + inv_bind H as [[fin sub1] w1] Hstep.
      destruct (Hrec _ _ _ _ _ _ _ _ Hstep) as [x ->].
      rewrite (IH _ _ _ _ _ _ H k).
      assert (Hk0 : only = true -> is_index k0 = true).
      { intros ->. cbn in Hskip. apply negb_false_iff in Hskip. exact Hskip. }
      destruct (decide (k = k0)) as [->|Hne].
      * rewrite lookup_set_field_eq. split; [|eauto]. intros _. right. auto.
      * rewrite lookup_set_field_ne by exact Hne.
        split; [tauto|]. intros [?|[[?|?] ?]]; auto; congruence.
Qed.

(** The result of stepping a composite mirrors its shape: [runAnimations]
    writes exactly the property [key] of [result], a sequence for a
    sequence and an object for an object, whose names are the indices of
    the sequence, respectively all the names of the object. *)
Theorem runAnimations_result_shape (host : Host) (a : bool)
    (fs : list (key * value)) (timestamp : value) (key : key)
    (result : list (Style.key * value)) (w w' : world) (fin : bool)
    (r : list (Style.key * value)) :
  a || negb (truthy (default VUndef (lookup_field k_onFrame fs))) = true ->
  runAnimations host true (VObj a fs) timestamp key result w = Ok (fin, r, w') ->
  exists sub,
    r = set_field key (VObj a sub) result
    /\ forall k, is_Some (lookup_field k sub)
                 <-> In k (keys_of fs) /\ (a = true -> is_index k = true).
Proof.
  intros Hshape H. cbn [runAnimations negb] in H.
  assert (Hnames : forall only sub b w1,
            run_each (runAnimations host true) timestamp only fs true [] w
            = Ok (b, sub, w1) ->
            forall k, is_Some (lookup_field k sub)
                      <-> In k (keys_of fs) /\ (only = true -> is_index k = true)).
  { intros only sub b w1 Hloop k.
    rewrite (run_each_names _ _ _ _ (runAnimations_writes_key host)
               _ _ _ _ _ _ Hloop k).
    cbn [lookup_field]. split; [intros [[? [=]]|?]; assumption | auto]. }
  destruct a.
  - inv_bind H as [[af sub] w1] Hloop. injection H as _ <- _.
    exists sub. split; [reflexivity | apply (Hnames true _ _ _ Hloop)].
  - cbn [orb] in Hshape. apply negb_true_iff in Hshape. rewrite Hshape in H.
    inv_bind H as [[af sub] w1] Hloop. injection H as _ <- _.
    exists sub. split; [reflexivity|]. intros k.
    rewrite (Hnames false _ _ _ Hloop k). split; [tauto|].
    intros [? _]. split; [assumption | discriminate].
Qed.

Lemma runAnimations_result_shape_witness :
  exists sub,
    [(KStr "transform",
      arr [obj [("translateX", num 40)]; obj [("scale", num 2)]])]
    = set_field (KStr "transform") (VObj true sub) []
    /\ forall k,
         is_Some (lookup_field k sub)
         <-> In k (keys_of (indexed [obj [("translateX", VAnim 1%nat)];
                                     obj [("scale", num 2)]]))
             /\ (true = true -> is_index k = true).
Proof.
  eapply (runAnimations_result_shape sample_host true
            (indexed [obj [("translateX", VAnim 1%nat)]; obj [("scale", num 2)]])
            t16 (KStr "transform") [] sample_world).
  - reflexivity.
  - vm_compute. reflexivity.
Defined.

(** *** Preparing a sequence *)

Lemma prepare_each_elements_only
    (rec : value -> value -> value -> world -> outcome world)
    (la lv : value) (ps : list (key * value)) :
  forallb (fun kv => is_index (fst kv)) ps = true ->
  forall w, prepare_each rec la lv true ps w = prepare_each rec la lv false ps w.
Proof.
  induction ps as [|[k v] ps IH]; intros Hidx w; [reflexivity|].
  cbn [forallb fst] in Hidx. apply andb_true_iff in Hidx as [Hk Hps].
  cbn [prepare_each]. rewrite Hk. cbn [negb andb].
  destruct (and_get (w_store w) la k); cbn [obind]; try reflexivity.
  destruct (and_get (w_store w) lv k); cbn [obind]; try reflexivity.
  destruct (rec v a a0 w); cbn [obind]; try reflexivity.
  apply IH, Hps.
Qed.

Lemma lookup_field_index_only (s : string) (ps : list (key * value)) :
  forallb (fun kv => is_index (fst kv)) ps = true ->
  lookup_field (KStr s) ps = None.
Proof.
  induction ps as [|[k v] ps IH]; [reflexivity|].
  cbn [forallb fst lookup_field]. intros H.
  apply andb_true_iff in H as [Hk Hps].
  case_decide; subst; [discriminate | apply IH, Hps].
Qed.

(** Every element of a sequence is prepared twice: [prepareAnimation]
    walks the elements with [forEach] and then, a sequence being an object
    without [onFrame], walks them again through [Object.keys]; an
    animation inside a sequence has its [onStart] called in both passes. *)
Theorem prepareAnimation_sequence_twice (host : Host) (now : value)
    (fs : list (key * value)) (la lv : value) (w : world) :
  forallb (fun kv => is_index (fst kv)) fs = true ->
  prepareAnimation host now (VObj true fs) la lv w
  = obind (prepare_each (prepareAnimation host now) la lv false fs w)
      (fun w1 => prepare_each (prepareAnimation host now) la lv false fs w1).
Proof.
  intros Hidx. cbn [prepareAnimation].
  rewrite (prepare_each_elements_only _ _ _ _ Hidx).
  unfold k_onFrame. rewrite (lookup_field_index_only _ _ Hidx). reflexivity.
Qed.

Lemma prepareAnimation_sequence_twice_witness :
  prepareAnimation sample_host t16
    (arr [obj [("translateX", VAnim 2%nat)]]) VUndef VUndef sample_world
  = obind (prepare_each (prepareAnimation sample_host t16) VUndef VUndef false
             (indexed [obj [("translateX", VAnim 2%nat)]]) sample_world)
      (fun w1 =>
         prepare_each (prepareAnimation sample_host t16) VUndef VUndef false
           (indexed [obj [("translateX", VAnim 2%nat)]]) w1)
  /\ (exists w',
        prepareAnimation sample_host t16
          (arr [obj [("translateX", VAnim 2%nat)]]) VUndef VUndef sample_world
        = Ok w'
        /\ w_trace w'
           = [EOnStart fn_onStart 2%nat (num 0) t16 VUndef;
              EOnStart fn_onStart 2%nat (num 0) t16 VUndef]).
Proof.
  split.
  - apply (prepareAnimation_sequence_twice sample_host t16
             (indexed [obj [("translateX", VAnim 2%nat)]])).
    reflexivity.
  - eexists. split; vm_compute; reflexivity.
Defined.
(** *** How a continuation ends *)

Lemma frame_loop_not_all_finished (host : Host) (active : bool) (ts : value)
    (ks : list key) :
  forall an ls updates w an' ls' updates' allFinished' w',
    frame_loop host active ts ks an ls updates false w
    = Ok (an', ls', updates', allFinished', w') ->
    allFinished' = false.
Proof.
  induction ks as [|k ks IH];
    intros an ls updates w an' ls' updates' allFinished' w' H;
    cbn [frame_loop] in H.
  - injection H as _ _ _ <- _. reflexivity.
  - inv_bind H as v Hv. inv_bind H as [[finished updates1] w1] Hrun.
    destruct finished.
    + inv_bind H as last1 Hl. inv_bind H as an1 Han. eapply IH, H.
    + eapply IH, H.
Qed.

Lemma frame_loop_all_finished (host : Host) (active : bool) (ts : value)
    (a : bool) (fs : list (key * value)) :
  forall ls updates allFinished w an' ls' updates' w',
    frame_loop host active ts (keys_of fs) (VObj a fs) ls updates allFinished w
    = Ok (an', ls', updates', true, w') ->
    an' = VObj a [].
Proof.
  induction fs as [|[k v] fs IH];
    intros ls updates allFinished w an' ls' updates' w' H;
    cbn [keys_of map fst frame_loop] in H.
  - injection H as <- _ _ _ _. reflexivity.
  - cbn [get_prop lookup_field] in H. rewrite decide_True in H by reflexivity.
    cbn [default from_option id obind] in H.
    inv_bind H as [[finished updates1] w1] Hrun.
    destruct finished.
    + inv_bind H as last1 Hl.
      cbn [delete_prop delete_field obind] in H.
      rewrite decide_True in H by reflexivity.
      eapply IH, H.
    + apply frame_loop_not_all_finished in H. discriminate.
Qed.

(** A continuation that is not cancelled ends in one of two ways.  Either
    every entry finished: then [state.animations] is left empty, the loop
    is marked stopped and the last effect is the commit of the updates, no
    frame being requested.  Or some entry did not finish: then the commit
    is followed by exactly one frame request and the loop stays marked as
    it was. *)
Theorem frame_stops_or_requests (host : Host) (active : bool)
    (timestamp : value) (a : bool) (fs : list (key * value))
    (state state' : AnimatedState) (w w' : world) :
  isAnimationCancelled state = false ->
  animations state = VObj a fs ->
  frame host active timestamp state w = Ok (state', w') ->
  exists wf updates,
    callbacks_only w wf
    /\ ((isAnimationRunning state' = false
         /\ animations state' = VObj a []
         /\ w_trace w' = w_trace wf ++ [EUpdateProps updates])
        \/ (isAnimationRunning state' = isAnimationRunning state
            /\ w_trace w' = w_trace wf ++ [EUpdateProps updates; ERequestFrame])).
Proof.
  intros Hc Han H. unfold frame in H. rewrite Hc, Han in H.
  cbn [keys_in obind] in H.
  inv_bind H as [[[[an1 last1] updates] allFinished] w1] Hloop.
  exists w1, (VObj false updates).
  split; [eapply frame_loop_trace; eassumption|].
  destruct allFinished; cbn [negb] in H; injection H as <- <-.
  - left. cbn [isAnimationRunning animations].
    split; [reflexivity|]. split; [|reflexivity].
    eapply frame_loop_all_finished, Hloop.
  - right. cbn [isAnimationRunning]. split; [reflexivity|].
    cbn. rewrite <- app_assoc. reflexivity.
Qed.

Lemma frame_stops_or_requests_witness :
  exists state' w' wf updates,
    frame sample_host true t16
      (mkState (obj []) (obj [("opacity", VAnim 3%nat)]) true false) jump_world
    = Ok (state', w')
    /\ callbacks_only jump_world wf
    /\ ((isAnimationRunning state' = false
         /\ animations state' = VObj false []
         /\ w_trace w' = w_trace wf ++ [EUpdateProps updates])
        \/ (isAnimationRunning state' = true
            /\ w_trace w' = w_trace wf ++ [EUpdateProps updates; ERequestFrame])).
Proof.
  set (st0 := mkState (obj []) (obj [("opacity", VAnim 3%nat)]) true false).
  assert (E : {p | frame sample_host true t16 st0 jump_world = Ok p})
    by (eexists; vm_compute; reflexivity).
  destruct E as [[state' w'] E].
  destruct (frame_stops_or_requests sample_host true t16 false
              [(KStr "opacity", VAnim 3%nat)] st0 state' jump_world w'
              eq_refl eq_refl E)
    as (wf & updates & Hcb & Hend).
  exists state', w', wf, updates.
  split; [exact E|]. split; [exact Hcb | exact Hend].
Defined.

(** *** Cancellation *)

(** A producer result without animated entries cancels the loop: the
    updater commits the result as it is and from then on a continuation
    that was pending does nothing but mark the loop stopped; it steps no
    animation, commits nothing and requests no frame. *)
Theorem styleUpdater_static_result_cancels (host : Host) (active : bool)
    (produced frameTimestamp now : value) (state : AnimatedState)
    (w w1 : world) (animations1 : value) :
  classify_new_values host produced now state w = Ok (animations1, false, w1) ->
  exists state',
    styleUpdater host active produced frameTimestamp now state w
    = Ok (state', emit (EUpdateProps (nullish_or produced (VObj false []))) w1)
    /\ forall timestamp w2,
         frame host active timestamp state' w2
         = Ok (mkState (last state') (animations state') false true, w2).
Proof.
  intros Hclass. unfold styleUpdater. rewrite Hclass. cbn [obind].
  eexists. split; [reflexivity|]. intros timestamp w2. reflexivity.
Qed.

Lemma styleUpdater_static_result_cancels_witness :
  exists state',
    styleUpdater sample_host true produced_width60 VUndef t16 running_state
      sample_world
    = Ok (state', emit (EUpdateProps produced_width60) sample_world)
    /\ forall timestamp w2,
         frame sample_host true timestamp state' w2
         = Ok (mkState (last state') (animations state') false true, w2).
Proof.
  apply (styleUpdater_static_result_cancels sample_host true produced_width60
           VUndef t16 running_state sample_world sample_world
           (obj [("opacity", VAnim 1%nat)])).
  vm_compute. reflexivity.
Defined.

(** An animated result that arrives while a cancelled loop is still marked
    running does not restart the loop: the updater requests no frame and
    leaves the cancellation in place, so the continuation that is pending
    stops without stepping the new animations, which stay in
    [state.animations]. *)
Theorem styleUpdater_animated_after_cancel_stalls (host : Host)
    (active : bool) (produced frameTimestamp now : value)
    (state state' : AnimatedState) (w w1 w' : world) (animations1 : value) :
  classify_new_values host produced now state w = Ok (animations1, true, w1) ->
  isAnimationRunning state = true ->
  isAnimationCancelled state = true ->
  styleUpdater host active produced frameTimestamp now state w
  = Ok (state', w') ->
  animations state' = animations1
  /\ isAnimationCancelled state' = true
  /\ (exists style, w' = emit (EUpdateProps style) w1)
  /\ forall timestamp w2,
       frame host active timestamp state' w2
       = Ok (mkState (last state') animations1 false true, w2).
Proof.
  intros Hclass Hrun Hcan H. unfold styleUpdater in H. rewrite Hclass in H.
  cbn [obind isAnimationRunning] in H. rewrite Hrun in H.
  cbn [negb obind last animations isAnimationCancelled isAnimationRunning] in H.
  inv_bind H as merged Hm. inv_bind H as style Hs. injection H as <- <-.
  cbn [animations isAnimationCancelled last].
  split; [reflexivity|]. split; [exact Hcan|]. split; [eauto|].
  intros timestamp w2. unfold frame. cbn [isAnimationCancelled].
  rewrite Hcan. reflexivity.
Qed.

Lemma styleUpdater_animated_after_cancel_stalls_witness :
  exists state' w',
    styleUpdater sample_host true produced_opacity VUndef t16
      cancelled_running_state sample_world = Ok (state', w')
    /\ animations state' = VObj true [(KStr "opacity", VAnim 2%nat)]
    /\ isAnimationCancelled state' = true
    /\ (exists style,
          w' = emit (EUpdateProps style)
                 (mkWorld (w_store w')
                    [EOnStart fn_onStart 2%nat (num 0) t16 VUndef]))
    /\ forall timestamp w2,
         frame sample_host true timestamp state' w2
         = Ok (mkState (last state')
                 (VObj true [(KStr "opacity", VAnim 2%nat)]) false true, w2).
Proof.
  assert (E : {p | styleUpdater sample_host true produced_opacity VUndef t16
                     cancelled_running_state sample_world = Ok p})
    by (eexists; vm_compute; reflexivity).
  destruct E as [[state' w'] E].
  exists state', w'. split; [exact E|].
  assert (Hc : classify_new_values sample_host produced_opacity t16
                 cancelled_running_state sample_world
               = Ok (VObj true [(KStr "opacity", VAnim 2%nat)], true,
                     mkWorld (w_store w')
                       [EOnStart fn_onStart 2%nat (num 0) t16 VUndef])).
  { vm_compute in E. injection E as _ <-. vm_compute. reflexivity. }
  apply (styleUpdater_animated_after_cancel_stalls sample_host true
           produced_opacity VUndef t16 cancelled_running_state state'
           sample_world _ w' _ Hc eq_refl eq_refl E).
Defined.

Lemma jestStyleUpdater_deletes_unanimated_witness :
  exists state' w' a' fs',
    jestStyleUpdater sample_host sample_json true produced_scale VUndef t16
      running_state sample_world = Ok (state', w')
    /\ animations state' = VObj a' fs'
    /\ lookup_field (KStr "opacity") fs' = None.
Proof.
  assert (E : {p | jestStyleUpdater sample_host sample_json true produced_scale
                     VUndef t16 running_state sample_world = Ok p})
    by (eexists; vm_compute; reflexivity).
  destruct E as [[state' w'] E].
  destruct (jestStyleUpdater_deletes_unanimated sample_host sample_json true false
              false [(KStr "scale", VAnim 2%nat)]
              [(KStr "opacity", VAnim 1%nat)] VUndef t16 running_state state'
              sample_world w' (KStr "opacity"))
    as (a' & fs' & Han & Hnone).
  - reflexivity.
  - apply (bool_decide_unpack _). vm_compute. reflexivity.
  - left. reflexivity.
  - intros st'. reflexivity.
  - exact E.
  - exists state', w', a', fs'. auto.
Defined.

(** *** The misuse check of [useAnimatedStyle] *)

Import Hook.

Lemma some_invalid_skips_plain (st : gmap nat (list (key * value)))
    (initial : value) (wrongKey : option key) (ks ks' : list key) :
  Forall (fun k => exists v, get_prop st initial k = Ok v
                             /\ plain_entry st v = true) ks ->
  some_invalid st initial (ks ++ ks') wrongKey
  = some_invalid st initial ks' wrongKey.
Proof.
  induction 1 as [|k ks (v & Hv & Hplain) _ IH]; [reflexivity|].
  cbn [app some_invalid]. rewrite Hv. cbn [obind].
  unfold plain_entry in Hplain.
  apply andb_true_iff in Hplain as [Harr Hval].
  assert (E : isObjectValid st wrongKey v k = Ok (true, wrongKey)).
  { unfold isObjectValid.
    destruct (typeof_object v); cbn [negb orb] in Hval.
    - destruct (get_prop st v k_value) as [[]| |]; try discriminate.
      reflexivity.
    - reflexivity. }
  destruct v as [| | | | | | |[|] fs|]; try discriminate Harr;
    rewrite E; cbn [obind negb]; exact IH.
Qed.

Lemma get_prop_middle (st : gmap nat (list (key * value))) (a : bool)
    (pre rest : list (key * value)) (k : key) (v : value) :
  NoDup (keys_of (pre ++ (k, v) :: rest)) ->
  get_prop st (VObj a (pre ++ (k, v) :: rest)) k = Ok v
  /\ Forall (fun k' => exists v',
               get_prop st (VObj a (pre ++ (k, v) :: rest)) k' = Ok v'
               /\ In (k', v') pre) (keys_of pre).
Proof.
  intros Hnd. unfold keys_of in Hnd. rewrite map_app in Hnd.
  apply NoDup_app in Hnd as (Hpre & Hdis & _).
  split.
  - cbn [get_prop]. rewrite lookup_field_app.
    rewrite lookup_field_not_key.
    + cbn [lookup_field]. rewrite decide_True by reflexivity. reflexivity.
    + intros Hin. apply (Hdis k); [apply list_elem_of_In, Hin|].
      cbn. apply elem_of_cons. left. reflexivity.
  - apply Forall_forall. intros k' Hin. apply list_elem_of_In in Hin.
    destruct (lookup_field_key _ _ Hin) as [v' Hv'].
    exists v'. split; [|apply lookup_field_In, Hv'].
    cbn [get_prop]. rewrite lookup_field_app, Hv'. reflexivity.
Qed.

Lemma plain_prefix (st : gmap nat (list (key * value))) (a : bool)
    (pre rest : list (key * value)) (k : key) (v : value) :
  NoDup (keys_of (pre ++ (k, v) :: rest)) ->
  forallb (fun kv => plain_entry st (snd kv)) pre = true ->
  Forall (fun k' => exists v',
            get_prop st (VObj a (pre ++ (k, v) :: rest)) k' = Ok v'
            /\ plain_entry st v' = true) (keys_of pre).
Proof.
  intros Hnd Hplain.
  destruct (get_prop_middle st a pre rest k v Hnd) as [_ Hall].
  eapply Forall_impl; [exact Hall|].
  intros k' (v' & Hget & Hin). exists v'. split; [exact Hget|].
  rewrite forallb_forall in Hplain. apply (Hplain (k', v') Hin).
Qed.

(** The misuse check reports the first top-level name whose value is an
    object exposing [.value], when the names before it hold neither such an
    object nor a sequence; a style all of whose values are of that plain
    kind passes the check. *)
Theorem checkSharedValues_reports_first_misuse
    (st : gmap nat (list (key * value))) (a : bool) :
  (forall pre rest k v,
      NoDup (keys_of (pre ++ (k, v) :: rest)) ->
      forallb (fun kv => plain_entry st (snd kv)) pre = true ->
      misused st v = true ->
      checkSharedValues st (VObj a (pre ++ (k, v) :: rest))
      = Throw (Error (invalid_value_message k)))
  /\ (forall fs,
         NoDup (keys_of fs) ->
         forallb (fun kv => plain_entry st (snd kv)) fs = true ->
         checkSharedValues st (VObj a fs) = Ok tt).
Proof.
  split.
  - intros pre rest k v Hnd Hplain Hmis.
    unfold checkSharedValues. cbn [Object_keys keys_in obind].
    unfold keys_of. rewrite map_app. fold (keys_of pre).
    rewrite (some_invalid_skips_plain _ _ _ _ _
               (plain_prefix st a pre rest k v Hnd Hplain)).
    cbn [map fst some_invalid].
    destruct (get_prop_middle st a pre rest k v Hnd) as [-> _].
    cbn [obind]. unfold misused in Hmis.
    apply andb_true_iff in Hmis as [Hmis Hval].
    apply andb_true_iff in Hmis as [Harr Hobj].
    assert (E : isObjectValid st None v k = Ok (false, Some k)).
    { unfold isObjectValid. rewrite Hobj.
      destruct (get_prop st v k_value) as [x| |]; try discriminate.
      cbn [obind]. rewrite Hval. reflexivity. }
    destruct v as [| | | | | | |[|] fs|]; try discriminate Harr;
      rewrite E; reflexivity.
  - intros fs Hnd Hplain.
    unfold checkSharedValues. cbn [Object_keys keys_in obind].
    rewrite <- (app_nil_r (keys_of fs)).
    rewrite some_invalid_skips_plain; [reflexivity|].
    apply Forall_forall. intros k Hin. apply list_elem_of_In in Hin.
    destruct (lookup_field_key _ _ Hin) as [v Hv].
    exists v. split; [cbn [get_prop]; rewrite Hv; reflexivity|].
    rewrite forallb_forall in Hplain.
    apply (Hplain (k, v)), lookup_field_In, Hv.
Qed.

Lemma checkSharedValues_reports_first_misuse_witness :
  checkSharedValues sample_store style_misused
  = Throw (Error (invalid_value_message (KStr "opacity")))
  /\ checkSharedValues sample_store style_before = Ok tt.
Proof.
  destruct (checkSharedValues_reports_first_misuse sample_store false)
    as [Hfirst Hnone].
  split.
  - apply (Hfirst [(KStr "width", num 50)] [(KStr "height", shared_value)]
             (KStr "opacity") shared_value);
      [apply (bool_decide_unpack _); vm_compute; reflexivity
      | reflexivity | reflexivity].
  - apply (Hnone [(KStr "width", num 50); (KStr "opacity", VAnim 1%nat)]);
      [apply (bool_decide_unpack _); vm_compute; reflexivity | reflexivity].
Defined.

(** The scan of the misuse check ends at the first name holding an empty
    sequence: nothing is reported, whatever the names after it hold, a
    shared value included. *)
Theorem checkSharedValues_stops_at_empty_sequence
    (st : gmap nat (list (key * value))) (a : bool)
    (pre rest : list (key * value)) (k : key) :
  NoDup (keys_of (pre ++ (k, VObj true []) :: rest)) ->
  forallb (fun kv => plain_entry st (snd kv)) pre = true ->
  checkSharedValues st (VObj a (pre ++ (k, VObj true []) :: rest)) = Ok tt.
Proof.
  intros Hnd Hplain.
  unfold checkSharedValues. cbn [Object_keys keys_in obind].
  unfold keys_of. rewrite map_app. fold (keys_of pre).
  rewrite (some_invalid_skips_plain _ _ _ _ _
             (plain_prefix st a pre rest k _ Hnd Hplain)).
  cbn [map fst some_invalid].
  destruct (get_prop_middle st a pre rest k _ Hnd) as [-> _].
  reflexivity.
Qed.

Lemma checkSharedValues_stops_at_empty_sequence_witness :
  checkSharedValues sample_store style_misused_after_sequence = Ok tt
  /\ misused sample_store shared_value = true.
Proof.
  split; [|reflexivity].
  apply (checkSharedValues_stops_at_empty_sequence sample_store false []
           [(KStr "opacity", shared_value)] (KStr "transform"));
    [apply (bool_decide_unpack _); vm_compute; reflexivity | reflexivity].
Defined.
(** *** The dependency list of [useAnimatedStyle] *)

Lemma hookDependencies_explicit (Number_toString : N -> string)
    (inputs : list Deps.dval) (workletHash descriptors : Deps.dval)
    (adapters : option (list Deps.WorkletFunction))
    (hashes : option (list N)) (initRef_current : option AnimatedState)
    (initialStyle : value) (a : Deps.addr) (items : list Deps.dval)
    (h : Deps.heap) :
  h !! a = Some (Deps.CArr items) ->
  option_map (map Deps.__workletHash) adapters
  = option_map (map Some) hashes ->
  hookDependencies Number_toString inputs workletHash adapters
    initRef_current initialStyle descriptors (Some a) h
  = let pushed :=
      (items ++ [workletHash])
      ++ Reference.adapters_entry Number_toString hashes in
    match initRemoteState initRef_current initialStyle with
    | Ok state =>
        (<[a := Deps.CArr (pushed ++ [descriptors])]>
           (<[a := Deps.CArr pushed]> h), Ok (a, state))
    | Throw e => (<[a := Deps.CArr pushed]> h, Throw e)
    | Stuck => (<[a := Deps.CArr pushed]> h, Stuck)
    end.
Proof.
  intros Ha Hh. unfold hookDependencies.
  destruct adapters as [ws|], hashes as [hs|]; try discriminate.
  - cbn [option_map] in Hh. injection Hh as Hh.
    unfold Deps.buildWorkletsHash.
    rewrite (reduce_hashes_ok _ _ _ _ Hh).
    cbn [obind]. unfold Deps.heap, Deps.addr in *. rewrite Ha.
    change (EmptyString +:+ Reference.aggregate_hash Number_toString hs)
      with (Reference.aggregate_hash Number_toString hs).
    cbn [Reference.adapters_entry].
    destruct (String.eqb _ EmptyString);
      rewrite ?app_nil_r; reflexivity.
  - unfold Deps.heap, Deps.addr in *. rewrite Ha.
    cbn [Reference.adapters_entry]. rewrite app_nil_r. reflexivity.
Qed.

(** With a dependency list of the caller, a render of [useAnimatedStyle]
    that gets past the first-render validation appends to that very list
    the worklet hash, the adapters' hash text unless it is empty, and the
    view descriptors, and changes no other object; a list passed to two
    renders holds these entries twice.  A first render whose style fails
    the validation raises after the hash entries have been appended and
    before the descriptors are.  Whatever text [toString] gives. *)
Theorem hookDependencies_grows_caller_list (Number_toString : N -> string)
    (inputs : list Deps.dval) (workletHash descriptors : Deps.dval)
    (adapters : option (list Deps.WorkletFunction))
    (hashes : option (list N)) (initRef_current : option AnimatedState)
    (initialStyle : value) (a : Deps.addr) (items : list Deps.dval)
    (h : Deps.heap) :
  h !! a = Some (Deps.CArr items) ->
  option_map (map Deps.__workletHash) adapters
  = option_map (map Some) hashes ->
  let pushed :=
    workletHash :: Reference.adapters_entry Number_toString hashes in
  (forall state,
      initRemoteState initRef_current initialStyle = Ok state ->
      exists h1 h2,
        hookDependencies Number_toString inputs workletHash adapters
          initRef_current initialStyle descriptors (Some a) h
        = (h1, Ok (a, state))
        /\ h1 !! a = Some (Deps.CArr (items ++ pushed ++ [descriptors]))
        /\ hookDependencies Number_toString inputs workletHash adapters
             (Some state) initialStyle descriptors (Some a) h1
           = (h2, Ok (a, state))
        /\ h2 !! a
           = Some (Deps.CArr ((items ++ pushed ++ [descriptors])
                              ++ pushed ++ [descriptors]))
        /\ (forall b, b <> a -> h2 !! b = h !! b))
  /\ (forall e,
         initRemoteState initRef_current initialStyle = Throw e ->
         exists h1,
           hookDependencies Number_toString inputs workletHash adapters
             initRef_current initialStyle descriptors (Some a) h
           = (h1, Throw e)
           /\ h1 !! a = Some (Deps.CArr (items ++ pushed))
           /\ (forall b, b <> a -> h1 !! b = h !! b)).
Proof.
  intros Ha Hh pushed.
  assert (Hshape : forall l,
             (l ++ [workletHash])
             ++ Reference.adapters_entry Number_toString hashes
             = l ++ pushed).
  { intros l. unfold pushed. rewrite <- app_assoc. reflexivity. }
  split.
  - intros state Hinit.
    pose proof (hookDependencies_explicit Number_toString inputs workletHash
                  descriptors adapters hashes initRef_current initialStyle
                  a items h Ha Hh) as E1.
    cbn zeta in E1. rewrite Hinit, Hshape in E1.
    rewrite <- app_assoc in E1.
    eexists _, _. split; [exact E1|].
    unfold Deps.heap, Deps.addr in *.
    split; [apply lookup_insert_eq|].
    split.
    { rewrite (hookDependencies_explicit Number_toString inputs workletHash
                 descriptors adapters hashes (Some state) initialStyle a
                 (items ++ pushed ++ [descriptors]));
        [|apply lookup_insert_eq | exact Hh].
      cbn zeta. cbn [initRemoteState]. rewrite Hshape, <- app_assoc.
      reflexivity. }
    split; [apply lookup_insert_eq|].
    intros b Hb.
    etrans; [apply lookup_insert_ne; congruence|].
    etrans; [apply lookup_insert_ne; congruence|].
    etrans; apply lookup_insert_ne; congruence.
  - intros e Hinit.
    pose proof (hookDependencies_explicit Number_toString inputs workletHash
                  descriptors adapters hashes initRef_current initialStyle
                  a items h Ha Hh) as E1.
    cbn zeta in E1. rewrite Hinit, Hshape in E1.
    eexists. split; [exact E1|].
    unfold Deps.heap, Deps.addr in *.
    split; [apply lookup_insert_eq|].
    intros b Hb. apply lookup_insert_ne. congruence.
Qed.

(** Two renders with the caller's list [[1]], the worklet hash 9 and one
    adapter of hash 17, the descriptors being the array at address 1; and
    a first render whose style is a sequence. *)
Lemma hookDependencies_grows_caller_list_witness :
  (exists h1 h2 state,
      hookDependencies pretty [] (Deps.DNum (of_Z 9))
        (Some [Deps.mkWorklet (Some 17%N) Deps.DUndef]) None style_before
        (Deps.DRef 1%nat) (Some 0%nat)
        (<[1%nat := Deps.CArr []]> sample_heap)
      = (h1, Ok (0%nat, state))
      /\ hookDependencies pretty [] (Deps.DNum (of_Z 9))
           (Some [Deps.mkWorklet (Some 17%N) Deps.DUndef]) (Some state)
           style_before (Deps.DRef 1%nat) (Some 0%nat) h1
         = (h2, Ok (0%nat, state))
      /\ h2 !! 0%nat
         = Some (Deps.CArr
                   [Deps.DNum Num.one;
                    Deps.DNum (of_Z 9); Deps.DStr "17"; Deps.DRef 1%nat;
                    Deps.DNum (of_Z 9); Deps.DStr "17"; Deps.DRef 1%nat]))
  /\ (exists h1 e,
         hookDependencies pretty [] (Deps.DNum (of_Z 9))
           (Some [Deps.mkWorklet (Some 17%N) Deps.DUndef]) None (arr [])
           (Deps.DRef 1%nat) (Some 0%nat)
           (<[1%nat := Deps.CArr []]> sample_heap)
         = (h1, Throw e)
         /\ h1 !! 0%nat
            = Some (Deps.CArr [Deps.DNum Num.one; Deps.DNum (of_Z 9);
                               Deps.DStr "17"])).
Proof.
  assert (E : Reference.adapters_entry pretty (Some [17%N])
              = [Deps.DStr "17"]) by (vm_compute; reflexivity).
  assert (Ha : (<[1%nat := Deps.CArr []]> sample_heap : Deps.heap) !! 0%nat
               = Some (Deps.CArr [Deps.DNum Num.one]))
    by (vm_compute; reflexivity).
  split.
  - destruct (hookDependencies_grows_caller_list pretty [] (Deps.DNum (of_Z 9))
                (Deps.DRef 1%nat)
                (Some [Deps.mkWorklet (Some 17%N) Deps.DUndef])
                (Some [17%N]) None style_before 0%nat [Deps.DNum Num.one]
                (<[1%nat := Deps.CArr []]> sample_heap) Ha eq_refl)
      as [Hok _].
    destruct (Hok (mkState style_before VUndef false false) eq_refl)
      as (h1 & h2 & H1 & _ & H2 & H3 & _).
    rewrite E in H3.
    exists h1, h2, (mkState style_before VUndef false false).
    split; [exact H1|]. split; [exact H2 | exact H3].
  - destruct (hookDependencies_grows_caller_list pretty [] (Deps.DNum (of_Z 9))
                (Deps.DRef 1%nat)
                (Some [Deps.mkWorklet (Some 17%N) Deps.DUndef])
                (Some [17%N]) None (arr []) 0%nat [Deps.DNum Num.one]
                (<[1%nat := Deps.CArr []]> sample_heap) Ha eq_refl)
      as [_ Hthrow].
    destruct (Hthrow (Error static_styles_message) eq_refl)
      as (h1 & H1 & H2 & _).
    rewrite E in H2.
    exists h1, (Error static_styles_message).
    split; [exact H1 | exact H2].
Defined.

(** *** What the animated branch leaves in [state.last] *)

(** Where no continuation runs during the call, the animated branch of
    [styleUpdater] leaves in [state.last] a new object that holds, under
    every name of the new result, the value of the new result (for an
    animated name the animation object itself), and under every other
    name the value [state.last] held before. *)
Theorem styleUpdater_animated_last_merged (host : Host) (active : bool)
    (a b : bool) (old new : list (key * value))
    (frameTimestamp now : value) (state state' : AnimatedState)
    (w w1 w' : world) (animations1 : value) :
  last state = VObj a old ->
  NoDup (keys_of old) -> NoDup (keys_of new) ->
  classify_new_values host (VObj b new) now state w
  = Ok (animations1, true, w1) ->
  isAnimationRunning state = true \/ truthy frameTimestamp = false ->
  styleUpdater host active (VObj b new) frameTimestamp now state w
  = Ok (state', w') ->
  exists merged,
    last state' = VObj false merged
    /\ forall k, lookup_field k merged
                 = match lookup_field k new with
                   | Some v => Some v
                   | None => lookup_field k old
                   end.
Proof.
  intros Hlast Hold Hnew Hclass Hno H.
  pose proof (styleUpdater_animated_branch_merges host active (VObj b new)
                frameTimestamp now state state' w w1 w' animations1
                Hclass Hno H) as Hm.
  rewrite Hlast in Hm. cbn [nullish_or] in Hm.
  destruct (Object_assign2_new_wins (w_store w1) a b old new Hold Hnew)
    as (merged & Heq & Hlook).
  rewrite Heq in Hm. injection Hm as <-.
  exists merged. split; [reflexivity | exact Hlook].
Qed.

Lemma styleUpdater_animated_last_merged_witness :
  exists state' w' merged,
    styleUpdater sample_host true produced_opacity_width VUndef t16
      running_state sample_world = Ok (state', w')
    /\ last state' = VObj false merged
    /\ lookup_field (KStr "opacity") merged = Some (VAnim 2%nat)
    /\ lookup_field (KStr "width") merged = Some (num 50).
Proof.
  assert (E : {p | styleUpdater sample_host true produced_opacity_width VUndef
                     t16 running_state sample_world = Ok p})
    by (eexists; vm_compute; reflexivity).
  destruct E as [[state' w'] E].
  assert (Hc : {q | classify_new_values sample_host produced_opacity_width t16
                      running_state sample_world = Ok (fst q, true, snd q)})
    by (eexists (_, _); vm_compute; reflexivity).
  destruct Hc as [[an1 w1] Hc]. cbn [fst snd] in Hc.
  destruct (styleUpdater_animated_last_merged sample_host true false false
              [(KStr "opacity", VAnim 1%nat)]
              [(KStr "opacity", VAnim 2%nat); (KStr "width", num 50)]
              VUndef t16 running_state state' sample_world w1 w' an1)
    as (merged & Hl & Hlook).
  - reflexivity.
  - apply (bool_decide_unpack _). vm_compute. reflexivity.
  - apply (bool_decide_unpack _). vm_compute. reflexivity.
  - exact Hc.
  - left. reflexivity.
  - exact E.
  - exists state', w', merged. split; [exact E|]. split; [exact Hl|].
    rewrite !Hlook. split; reflexivity.
Defined.

(** *** A static result under [jestStyleUpdater] *)

Lemma static_default (st : gmap nat (list (key * value)))
    (new : list (key * value)) :
  forallb (fun kv => is_static st (snd kv)) new = true ->
  forall k, isAnimated st (default VUndef (lookup_field k new)) = Ok false.
Proof.
  intros Hall k. destruct (lookup_field k new) as [v|] eqn:Hk; [|reflexivity].
  rewrite forallb_forall in Hall.
  specialize (Hall (k, v) (lookup_field_In _ _ _ Hk)).
  cbn [snd default from_option id] in *. unfold is_static in Hall.
  destruct (isAnimated st v) as [[|]| |]; try discriminate. reflexivity.
Qed.

Lemma prune_loop_static (st : gmap nat (list (key * value))) (b : bool)
    (new : list (key * value)) (ks : list key) :
  (forall k, isAnimated st (default VUndef (lookup_field k new)) = Ok false) ->
  forall c fs, exists fs',
    prune_loop st (VObj b new) ks (VObj c fs) = Ok (VObj c fs').
Proof.
  intros Hstatic. induction ks as [|k ks IH]; intros c fs;
    cbn [prune_loop get_prop obind].
  - eauto.
  - rewrite Hstatic. cbn [obind negb delete_prop]. apply IH.
Qed.

Lemma extract_loop_static (host : Host) (now : value) (b : bool)
    (new : list (key * value)) (old : value) (w : world) (ks : list key) :
  (forall k, isAnimated (w_store w) (default VUndef (lookup_field k new))
             = Ok false) ->
  forall an has,
    extract_loop host now (VObj b new) old ks an has w = Ok (an, has, w).
Proof.
  intros Hstatic. induction ks as [|k ks IH]; intros an has;
    cbn [extract_loop get_prop obind]; [reflexivity|].
  rewrite Hstatic. cbn [obind]. apply IH.
Qed.

Lemma removed_loop_total (st : gmap nat (list (key * value))) (b : bool)
    (new : list (key * value)) (ks : list key) :
  forall diff, exists res, removed_loop st (VObj b new) ks diff = Ok res.
Proof.
  induction ks as [|k ks IH]; intros diff;
    cbn [removed_loop get_prop obind]; [eauto|].
  destruct (is_undefined _); apply IH.
Qed.

Lemma changed_loop_static_total
    (json : gmap nat (list (key * value)) -> value -> option string)
    (st : gmap nat (list (key * value))) (a b : bool)
    (old new : list (key * value)) (ks : list key) :
  (forall k, isAnimated st (default VUndef (lookup_field k new)) = Ok false) ->
  forall diff, exists res,
    changed_loop json st (VObj a old) (VObj b new) ks diff = Ok res.
Proof.
  intros Hstatic. induction ks as [|k ks IH]; intros diff;
    cbn [changed_loop get_prop obind]; [eauto|].
  rewrite Hstatic. cbn [obind].
  destruct (_ && _); apply IH.
Qed.

(** Under [jestStyleUpdater] a result without animated entries cancels
    the loop and empties [state.animations], commits the difference from
    [state.last] to the result (nothing at all when the difference is
    empty), and stores in [state.last] the merge of the two, the new
    values winning; [styleUpdater] in this case keeps [state.last] as it
    was (C3). *)
Theorem jestStyleUpdater_static_run (host : Host)
    (JSON_stringify : gmap nat (list (key * value)) -> value -> option string)
    (active : bool) (a b c : bool) (old new anims : list (key * value))
    (frameTimestamp now : value) (state : AnimatedState) (w : world) :
  last state = VObj a old ->
  nullish_or (animations state) (VObj false []) = VObj c anims ->
  NoDup (keys_of old) -> NoDup (keys_of new) ->
  forallb (fun kv => is_static (w_store w) (snd kv)) new = true ->
  exists diff merged,
    styleDiff JSON_stringify (w_store w) (VObj a old) (VObj b new)
    = Ok (VObj false diff)
    /\ jestStyleUpdater host JSON_stringify active (VObj b new) frameTimestamp
         now state w
       = Ok (mkState (VObj false merged) (VObj true [])
               (isAnimationRunning state) true,
             match diff with
             | [] => w
             | _ :: _ => emit (EUpdatePropsJest (VObj false diff)) w
             end)
    /\ forall k, lookup_field k merged
                 = match lookup_field k new with
                   | Some v => Some v
                   | None => lookup_field k old
                   end.
Proof.
  intros Hlast Han Hold Hnew Hall.
  pose proof (static_default _ _ Hall) as Hstatic.
  destruct (removed_loop_total (w_store w) b new (keys_of old) [])
    as [d1 Hd1].
  destruct (changed_loop_static_total JSON_stringify (w_store w) a b old new
              (keys_of new) Hstatic d1) as [diff Hdiff].
  assert (Hsd : styleDiff JSON_stringify (w_store w) (VObj a old) (VObj b new)
                = Ok (VObj false diff)).
  { unfold styleDiff. cbn [Object_keys keys_in obind].
    rewrite Hd1. cbn [obind]. rewrite Hdiff. reflexivity. }
  destruct (Object_assign2_new_wins (w_store w) a b old new Hold Hnew)
    as (merged & Hm & Hlook).
  destruct (prune_loop_static (w_store w) b new (keys_of anims) Hstatic c anims)
    as [anims' Hprune].
  exists diff, merged. split; [exact Hsd|]. split; [|exact Hlook].
  unfold jestStyleUpdater. rewrite Han, Hlast.
  cbn [nullish_or Object_keys keys_in obind].
  rewrite Hprune. cbn [obind].
  rewrite (extract_loop_static host now b new (VObj a old) w (keys_of new)
             Hstatic).
  cbn [obind last animations isAnimationRunning isAnimationCancelled].
  rewrite Hsd. cbn [obind]. rewrite Hm. cbn [obind keys_in].
  destruct diff; reflexivity.
Qed.

(** The committed style has the name [width] and the result the name
    [height]: the diff marks [width] removed and reports [height]; when
    the result changes [width] from 50 to 60, the diff reports the new
    value. *)
Lemma jestStyleUpdater_static_run_witness :
  (exists merged,
      jestStyleUpdater sample_host sample_json true
        (obj [("height", num 60)]) VUndef t16 static_state sample_world
      = Ok (mkState (VObj false merged) (VObj true []) false true,
            emit (EUpdatePropsJest
                    (obj [("width", VNull); ("height", num 60)]))
              sample_world)
      /\ lookup_field (KStr "width") merged = Some (num 50)
      /\ lookup_field (KStr "height") merged = Some (num 60))
  /\ (exists merged,
         jestStyleUpdater sample_host sample_json true produced_width60 VUndef
           t16 static_state sample_world
         = Ok (mkState (VObj false merged) (VObj true []) false true,
               emit (EUpdatePropsJest (obj [("width", num 60)])) sample_world)
         /\ lookup_field (KStr "width") merged = Some (num 60)).
Proof.
  split.
  - destruct (jestStyleUpdater_static_run sample_host sample_json true false
                false false [(KStr "width", num 50)] [(KStr "height", num 60)]
                [] VUndef t16 static_state sample_world)
      as (diff & merged & Hsd & Hrun & Hlook).
    + reflexivity.
    + reflexivity.
    + apply (bool_decide_unpack _). vm_compute. reflexivity.
    + apply (bool_decide_unpack _). vm_compute. reflexivity.
    + reflexivity.
    + exists merged. vm_compute in Hsd. injection Hsd as <-.
      split; [exact Hrun | rewrite !Hlook; split; reflexivity].
  - destruct (jestStyleUpdater_static_run sample_host sample_json true false
                false false [(KStr "width", num 50)] [(KStr "width", num 60)]
                [] VUndef t16 static_state sample_world)
      as (diff & merged & Hsd & Hrun & Hlook).
    + reflexivity.
    + reflexivity.
    + apply (bool_decide_unpack _). vm_compute. reflexivity.
    + apply (bool_decide_unpack _). vm_compute. reflexivity.
    + reflexivity.
    + exists merged. vm_compute in Hsd. injection Hsd as <-.
      split; [exact Hrun | rewrite Hlook; reflexivity].
Defined.

End StyleFacts.
